(** * piv-agent: the [setup] command (cmd/piv-agent/setup.go)

    The command provisions a PIV security key: it validates the operator's
    PIN/PUK, guards against overwriting a provisioned device, rotates the
    management key, PIN and PUK, and configures one or three slots.

    The Go code is a straight-line sequence of calls to the outside world
    (terminal, [piv-go] device handle, [crypto/rand], clock, [crypto/x509],
    [x/crypto/ssh], standard output), each followed by an [if err != nil]
    check.  It is embedded as a program in a small free monad over the
    signature of those calls; running a program against an environment that
    answers every call yields a result and the trace of calls made. *)

From Stdlib Require Import ZArith List String Ascii Bool Lia.
From Stdlib Require Import DecimalString.
From Stdlib Require Decimal DecimalFacts DecimalPos DecimalN.
Import ListNotations.
Local Open Scope string_scope.
Local Open Scope list_scope.
Local Open Scope Z_scope.

Set Implicit Arguments.

(** ** Data model *)

(** [piv.Slot]: the four standard PIV slots of piv-go. *)
Inductive Slot :=
| SlotAuthentication
| SlotSignature
| SlotCardAuthentication
| SlotKeyManagement.

(** [piv.TouchPolicy], [piv.PINPolicy], [piv.Algorithm]. *)
Inductive TouchPolicy := TouchPolicyNever | TouchPolicyAlways | TouchPolicyCached.
Inductive PINPolicy := PINPolicyNever | PINPolicyOnce | PINPolicyAlways.
Inductive Algorithm :=
| AlgorithmEC256 | AlgorithmEC384 | AlgorithmEd25519
| AlgorithmRSA1024 | AlgorithmRSA2048.

(** [piv.Key]: the parameters of on-device key generation. *)
Record Key := mkKey {
  Algorithm_ : Algorithm;
  PINPolicy_ : PINPolicy;
  TouchPolicy_ : TouchPolicy
}.

(** Operands of a formatted error message. *)
Inductive operand := opSlot (s : Slot) | opString (s : string).

(** Go [error] values.  [ErrNotFound] is the sentinel [piv.ErrNotFound];
    [ErrSyntax] and [ErrRange] are those of [strconv]; [errorString] is an
    error of a library; [errorf] is [fmt.Errorf] without [%w] and
    [wrapf] is [fmt.Errorf] whose [%w] operand is [err]. *)
Inductive error :=
| ErrNotFound
| ErrSyntax
| ErrRange
| errorString (msg : string)
| errorf (format : string) (args : list operand)
| wrapf (format : string) (args : list operand) (err : error).

(** [errors.Is(err, piv.ErrNotFound)]: walks the chain of wrapped errors. *)
Fixpoint errors_Is_ErrNotFound (err : error) : bool :=
  match err with
  | ErrNotFound => true
  | wrapf _ _ inner => errors_Is_ErrNotFound inner
  | _ => false
  end.

(** A Go pair [(value, error)] with [err == nil] or not. *)
Inductive result (A : Type) :=
| Ok (a : A)
| Err (e : error).
Arguments Ok {A} a.
Arguments Err {A} e.

(** Opaque handles of the libraries. *)
Inductive Logger := logger (id : nat).
Inductive YubiKey := yubikey (id : nat).
Inductive PublicKey := devicePub (id : Z).
Inductive PrivateKey := hostPriv (id : Z).
Inductive SSHPublicKey := sshPub (wire : string).

(** [time.Location]: the offset, in seconds east of UTC, of the zone in
    effect before the first transition, and the transitions in the order
    of time, each with its instant (seconds since the Unix epoch) and the
    offset from then on.  The zones that the rule of a zone file gives past
    its table count as transitions. *)
Record Location := mkLocation {
  initial : Z;
  transitions : list (Z * Z)
}.

(** [time.UTC]: offset 0 at all times. *)
Definition utcLoc : Location := {| initial := 0; transitions := [] |}.

(** [time.Time]: an instant, in nanoseconds since the Unix epoch, and the
    location in which it is read.  [time.Now()] answers in [time.Local],
    whatever that is on the host. *)
Record Time := mkTime { unixNano : Z; location : Location }.

(** An instant read in UTC. *)
Definition UTC (ns : Z) : Time := {| unixNano := ns; location := utcLoc |}.
Coercion UTC : Z >-> Time.

(** [pkix.Name] and [x509.Certificate], with the fields the command sets. *)
Record Name := mkName {
  CommonName : string;
  Organization : list string;
  OrganizationalUnit : list string
}.

Record Certificate := mkCertificate {
  Subject : Name;
  NotBefore : Time;
  NotAfter : Time;
  SerialNumber : option Z;
  KeyUsage : Z;
  CertPublicKey : option PrivateKey
}.

(** [piv.Metadata]. *)
Record Metadata := mkMetadata { ManagementKey : option (list Byte.byte) }.

(** [x509.KeyUsage] bit flags. *)
Definition KeyUsageDigitalSignature : Z := Z.shiftl 1 0.
Definition KeyUsageContentCommitment : Z := Z.shiftl 1 1.
Definition KeyUsageKeyEncipherment : Z := Z.shiftl 1 2.
Definition KeyUsageDataEncipherment : Z := Z.shiftl 1 3.
Definition KeyUsageKeyAgreement : Z := Z.shiftl 1 4.
Definition KeyUsageCertSign : Z := Z.shiftl 1 5.
Definition KeyUsageCRLSign : Z := Z.shiftl 1 6.
Definition KeyUsageEncipherOnly : Z := Z.shiftl 1 7.
Definition KeyUsageDecipherOnly : Z := Z.shiftl 1 8.

(** Factory defaults of piv-go. *)
Definition DefaultPIN : string := "123456".
Definition DefaultPUK : string := "12345678".
Definition DefaultManagementKey : list Byte.byte :=
  [Byte.x01; Byte.x02; Byte.x03; Byte.x04; Byte.x05; Byte.x06; Byte.x07; Byte.x08;
   Byte.x01; Byte.x02; Byte.x03; Byte.x04; Byte.x05; Byte.x06; Byte.x07; Byte.x08;
   Byte.x01; Byte.x02; Byte.x03; Byte.x04; Byte.x05; Byte.x06; Byte.x07; Byte.x08].

(** ** Calls to the outside world

    [Call X] is a call whose answer has type [X].  A Go function returning
    [(T, error)] answers [result T]; one returning only [error] answers
    [option error] ([None] is [nil]). *)
Inductive Call : Type -> Type :=
| zap_NewDevelopment : Call (result Logger)
| log_Sync (log : Logger) : Call (option error)
| fmt_Print (s : string) : Call unit
| fmt_Println : Call unit
| fmt_Printf (format : string) (args : list string) : Call unit
| terminal_ReadPassword : Call (result string)
| getSecurityKey (card : string) : Call (result YubiKey)
| yk_Certificate (k : YubiKey) (slot : Slot) : Call (result Certificate)
| yk_Reset (k : YubiKey) : Call (option error)
| rand_Read (n : nat) : Call (result (list Byte.byte))
| yk_SetManagementKey (k : YubiKey) (oldKey newKey : list Byte.byte) : Call (option error)
| yk_SetMetadata (k : YubiKey) (key : list Byte.byte) (m : Metadata) : Call (option error)
| yk_SetPIN (k : YubiKey) (oldPIN newPIN : string) : Call (option error)
| yk_SetPUK (k : YubiKey) (oldPUK newPUK : string) : Call (option error)
| yk_GenerateKey (k : YubiKey) (key : list Byte.byte) (slot : Slot) (opts : Key)
    : Call (result PublicKey)
| ecdsa_GenerateKey : Call (result PrivateKey)
| rand_Int (max : Z) : Call (result Z)
| time_Now : Call Time
| x509_CreateCertificate (template parent : Certificate)
    (pub : PublicKey) (priv : PrivateKey) : Call (result (list Byte.byte))
| x509_ParseCertificate (der : list Byte.byte) : Call (result Certificate)
| yk_SetCertificate (k : YubiKey) (key : list Byte.byte) (slot : Slot)
    (cert : Certificate) : Call (option error)
| ssh_NewPublicKey (pub : PublicKey) : Call (result SSHPublicKey).

(** One entry of a trace: a call and the answer it got. *)
Record Event := Ev {
  ev_type : Type;
  ev_call : Call ev_type;
  ev_resp : ev_type
}.
Arguments Ev {ev_type} ev_call ev_resp.

Definition Trace := list Event.

(** The outside world: it answers each call, knowing the calls so far. *)
Definition Env := Trace -> forall X, Call X -> X.

(** ** Programs *)

Inductive Prog (A : Type) : Type :=
| Ret (a : A)
| Fail (e : error)
| Do (X : Type) (c : Call X) (k : X -> Prog A).
Arguments Ret {A} a.
Arguments Fail {A} e.
Arguments Do {A X} c k.

Fixpoint bind {A B} (p : Prog A) (f : A -> Prog B) : Prog B :=
  match p with
  | Ret a => f a
  | Fail e => Fail e
  | Do c k => Do c (fun x => bind (k x) f)
  end.

Definition call {X} (c : Call X) : Prog X := Do c (fun x => Ret x).

(** [if err != nil { return fmt.Errorf(format, err) }] after a call that
    returned [(v, err)], respectively only [err]. *)
Definition check {A} (r : result A) (format : string) : Prog A :=
  match r with
  | Ok a => Ret a
  | Err err => Fail (wrapf format [] err)
  end.

Definition check_nil (r : option error) (format : string) : Prog unit :=
  match r with
  | None => Ret tt
  | Some err => Fail (wrapf format [] err)
  end.

(** [defer d]: [d] runs when the function body [p] returns, on every path. *)
Fixpoint defer {A} (p : Prog A) (d : Prog unit) : Prog A :=
  match p with
  | Ret a => bind d (fun _ => Ret a)
  | Fail e => bind d (fun _ => Fail e)
  | Do c k => Do c (fun x => defer (k x) d)
  end.

Declare Scope prog_scope.
Delimit Scope prog_scope with prog.
Notation "x <- p ;; q" := (bind p (fun x => q))
  (at level 61, p at next level, right associativity) : prog_scope.
Notation "p ;; q" := (bind p (fun _ => q))
  (at level 61, right associativity) : prog_scope.
Local Open Scope prog_scope.

(** Running a program: every call is answered by the environment and
    appended to the trace. *)
Fixpoint run {A} (env : Env) (p : Prog A) (tr : Trace) : Trace * result A :=
  match p with
  | Ret a => (tr, Ok a)
  | Fail e => (tr, Err e)
  | Do c k => let x := env tr _ c in run env (k x) (tr ++ [Ev c x])
  end.

(** [post p tr Q]: whatever the environment answers, [p] started after the
    trace [tr] ends in a trace and a result that satisfy [Q]. *)
Fixpoint post {A} (p : Prog A) (tr : Trace) (Q : Trace -> result A -> Prop) : Prop :=
  match p with
  | Ret a => Q tr (Ok a)
  | Fail e => Q tr (Err e)
  | Do c k => forall x, post (k x) (tr ++ [Ev c x]) Q
  end.

(** A call of a Go function whose body is [p]: the caller gets the value
    and the [error] the function returns. *)
Fixpoint returned {A} (p : Prog A) : Prog (result A) :=
  match p with
  | Ret a => Ret (Ok a)
  | Fail e => Ret (Err e)
  | Do c k => Do c (fun x => returned (k x))
  end.

(** [for _, x := range xs { body }] *)
Fixpoint for_range {X} (xs : list X) (body : X -> Prog unit) : Prog unit :=
  match xs with
  | [] => Ret tt
  | x :: rest => body x;; for_range rest body
  end.

(** ** Library functions the command calls *)

Definition maxUint64 : Z := 2 ^ 64 - 1.

(** [strconv.ParseUint(s, 10, 64)]: the digit loop, with [n] the value so
    far; a byte that is no decimal digit is a syntax error, a value above
    [maxUint64] a range error. *)
Fixpoint ParseUint_digits (s : string) (n : Z) : result Z :=
  match s with
  | EmptyString => Ok n
  | String c rest =>
      let b := Z.of_N (N_of_ascii c) in
      if (48 <=? b) && (b <=? 57) then
        let d := b - 48 in
        if maxUint64 / 10 + 1 <=? n then Err ErrRange
        else
          let n10 := n * 10 in
          let n1 := (n10 + d) mod 2 ^ 64 in
          if (n1 <? n10) || (maxUint64 <? n1) then Err ErrRange
          else ParseUint_digits rest n1
      else Err ErrSyntax
  end.

Definition ParseUint (s : string) : result Z :=
  match s with
  | EmptyString => Err ErrSyntax
  | _ => ParseUint_digits s 0
  end.

(** [strconv.FormatUint(n, 10)] *)
Definition FormatUint (n : Z) : string :=
  DecimalString.NilEmpty.string_of_uint (N.to_uint (Z.to_N n)).

(** [bytes.Equal] *)
Definition bytes_Equal (a b : string) : bool := String.eqb a b.

(** The proleptic Gregorian calendar of package [time]: days since the
    Unix epoch of a civil date and back. *)
Definition days_from_civil (y m d : Z) : Z :=
  let y := if m <=? 2 then y - 1 else y in
  let era := y / 400 in
  let yoe := y - era * 400 in
  let doy := (153 * (if 2 <? m then m - 3 else m + 9) + 2) / 5 + d - 1 in
  let doe := yoe * 365 + yoe / 4 - yoe / 100 + doy in
  era * 146097 + doe - 719468.

Definition civil_from_days (z : Z) : Z * Z * Z :=
  let z := z + 719468 in
  let era := z / 146097 in
  let doe := z - era * 146097 in
  let yoe := (doe - doe / 1460 + doe / 36524 - doe / 146096) / 365 in
  let doy := doe - (365 * yoe + yoe / 4 - yoe / 100) in
  let mp := (5 * doy + 2) / 153 in
  let d := doy - (153 * mp + 2) / 5 + 1 in
  let m := if mp <? 10 then mp + 3 else mp - 9 in
  ((if m <=? 2 then yoe + era * 400 + 1 else yoe + era * 400), m, d).

(** [l.lookup(sec)]: the zone in effect at the instant [sec], as its
    offset and the instants at which it starts and ends. *)
Fixpoint lookup_from (offset start : Z) (tx : list (Z * Z)) (sec : Z) : Z * Z * Z :=
  match tx with
  | [] => (offset, start, 2 ^ 63 - 1)
  | (when, offset') :: rest =>
      if sec <? when then (offset, start, when)
      else lookup_from offset' when rest sec
  end.

Definition lookup (loc : Location) (sec : Z) : Z * Z * Z :=
  lookup_from (initial loc) (- 2 ^ 63) (transitions loc) sec.

(** The offset of the zone in effect at [sec] in [loc]. *)
Definition zone_offset (loc : Location) (sec : Z) : Z :=
  let '(offset, _, _) := lookup loc sec in offset.

(** [time.Date(year, month, day, hour, min, sec, nsec, loc)]: the values
    may be outside their usual ranges and are normalised; the wall clock is
    first taken as if in UTC, then moved by the offset of the zone found for
    it, looked up again when the result falls outside that zone. *)
Definition Date (year month day hour min sec nsec : Z) (loc : Location) : Time :=
  let m0 := month - 1 in
  let year := year + m0 / 12 in
  let month := m0 mod 12 + 1 in
  let sec := sec + nsec / 1000000000 in
  let nsec := nsec mod 1000000000 in
  let unix := (days_from_civil year month 1 + day - 1) * 86400
              + hour * 3600 + min * 60 + sec in
  let '(offset, start, end_) := lookup loc unix in
  let unix :=
    if offset =? 0 then unix
    else
      let utc := unix - offset in
      let offset :=
        if (utc <? start) || (end_ <=? utc) then zone_offset loc utc else offset in
      unix - offset in
  {| unixNano := unix * 1000000000 + nsec; location := loc |}.

(** [t.AddDate(years, months, days)]: the date and the clock of [t] as read
    in the location of [t], the date shifted, put together again by
    [time.Date] in the same location. *)
Definition AddDate (t : Time) (years months days : Z) : Time :=
  let sec := unixNano t / 1000000000 in
  let nsec := unixNano t mod 1000000000 in
  let abs := sec + zone_offset (location t) sec in
  let '(y, m, d) := civil_from_days (abs / 86400) in
  let clock := abs mod 86400 in
  Date (y + years) (m + months) (d + days)
       (clock / 3600) (clock mod 3600 / 60) (clock mod 60) nsec (location t).

(** The zero [time.Time]: January 1, year 1, 00:00:00 UTC. *)
Definition zeroTime : Time := UTC (days_from_civil 1 1 1 * 86400 * 1000000000).

(** [ssh.MarshalAuthorizedKey] *)
Definition ssh_MarshalAuthorizedKey (key : SSHPublicKey) : string :=
  match key with sshPub wire => wire end.

(** A [[24]byte] array holding the bytes a reader stored into it. *)
Definition array24 (bs : list Byte.byte) : list Byte.byte :=
  firstn 24 (bs ++ repeat Byte.x00 24).

(** ** The command *)

Record SetupCmd := mkSetupCmd {
  Card : string;
  ResetSecurityKey : bool;
  PIN : Z;
  AllTouchPolicies : bool
}.

(** The command-line flags as given; a flag that is absent leaves its
    field at the zero value, or at the [default] of its tag. *)
Record Flags := mkFlags {
  flag_card : option string;
  flag_reset_security_key : option bool;
  flag_pin : option Z;
  flag_all_touch_policies : option bool
}.

Definition from_flags (f : Flags) : SetupCmd :=
  {| Card := match flag_card f with Some c => c | None => "" end;
     ResetSecurityKey :=
       match flag_reset_security_key f with Some b => b | None => false end;
     PIN := match flag_pin f with Some n => n | None => 0 end;
     AllTouchPolicies :=
       match flag_all_touch_policies f with Some b => b | None => true end |}.

Record slotSpec := mkSlotSpec {
  slot : Slot;
  touchPolicy : TouchPolicy
}.

Definition allKeySpec : list slotSpec :=
  [ mkSlotSpec SlotAuthentication TouchPolicyCached;
    mkSlotSpec SlotSignature TouchPolicyAlways;
    mkSlotSpec SlotCardAuthentication TouchPolicyNever ].

Definition TouchPolicy_eqb (a b : TouchPolicy) : bool :=
  match a, b with
  | TouchPolicyNever, TouchPolicyNever
  | TouchPolicyAlways, TouchPolicyAlways
  | TouchPolicyCached, TouchPolicyCached => true
  | _, _ => false
  end.

Definition touchStringMap : list (TouchPolicy * string) :=
  [ (TouchPolicyNever, "never");
    (TouchPolicyAlways, "always");
    (TouchPolicyCached, "cached") ].

(** [m[key]] on a Go map: the zero value when the key is absent. *)
Fixpoint map_index (m : list (TouchPolicy * string)) (key : TouchPolicy) : string :=
  match m with
  | [] => ""
  | (k, v) :: rest => if TouchPolicy_eqb k key then v else map_index rest key
  end.

Definition LF : string := String (ascii_of_nat 10) "".

Definition interactivePIN : Prog Z :=
  call (fmt_Print "Enter a new PIN/PUK (6-8 digits): ");;
  r <- call terminal_ReadPassword;;
  call fmt_Println;;
  rawPIN <- check r "couldn't read PIN/PUK: %w";;
  pin <- check (ParseUint rawPIN) "invalid characters: %w";;
  call (fmt_Print "Repeat PIN/PUK: ");;
  r <- call terminal_ReadPassword;;
  call fmt_Println;;
  repeat <- check r "couldn't read PIN/PUK: %w";;
  if negb (bytes_Equal repeat rawPIN)
  then Fail (errorf "PIN/PUK entries not equal" [])
  else Ret pin.

Section Setup.

(** The package variable [version], set at build time. *)
Variable version : string.

Definition configureSlot (cmd : SetupCmd) (k : YubiKey) (mk : list Byte.byte)
    (slot : Slot) (touchPolicy : TouchPolicy) : Prog unit :=
  r <- call (yk_GenerateKey k mk slot
               {| Algorithm_ := AlgorithmEC256;
                  PINPolicy_ := PINPolicyOnce;
                  TouchPolicy_ := touchPolicy |});;
  pub <- check r "couldn't generate key: %w";;
  r <- call ecdsa_GenerateKey;;
  priv <- check r "couldn't generate parent key: %w";;
  let parent :=
    {| Subject := {| CommonName := "";
                     Organization := ["piv-agent"];
                     OrganizationalUnit := [version] |};
       NotBefore := zeroTime;
       NotAfter := zeroTime;
       SerialNumber := None;
       KeyUsage := 0;
       CertPublicKey := Some priv |} in
  r <- call (rand_Int (Z.shiftl 1 128));;
  serial <- check r "couldn't generate serial: %w";;
  now1 <- call time_Now;;
  now2 <- call time_Now;;
  let template :=
    {| Subject := {| CommonName := "SSH key";
                     Organization := [];
                     OrganizationalUnit := [] |};
       NotAfter := AddDate now1 64 0 0;
       NotBefore := now2;
       SerialNumber := Some serial;
       KeyUsage := Z.lor KeyUsageKeyAgreement KeyUsageDigitalSignature;
       CertPublicKey := None |} in
  r <- call (x509_CreateCertificate template parent pub priv);;
  certBytes <- check r "couldn't create certificate: %w";;
  r <- call (x509_ParseCertificate certBytes);;
  cert <- check r "couldn't parse certificate: %w";;
  r <- call (yk_SetCertificate k mk slot cert);;
  check_nil r "couldn't set certificate: %w";;
  r <- call (ssh_NewPublicKey pub);;
  sshKey <- check r "couldn't get SSH public key: %w";;
  call (fmt_Printf ("🔑 Generated SSH key, touch policy: %s" ++ LF)%string
          [map_index touchStringMap touchPolicy]);;
  call (fmt_Printf (ssh_MarshalAuthorizedKey sshKey) []);;
  Ret tt.

(** The local variable [keySpec] of [setup]: the table the loop ranges over. *)
Definition keySpec (cmd : SetupCmd) : list slotSpec :=
  if AllTouchPolicies cmd then allKeySpec
  else [ mkSlotSpec SlotAuthentication TouchPolicyCached ].

(** The loop that ends [setup]: [for _, ss := range keySpec { ... }]. *)
Definition configureSlots (cmd : SetupCmd) (k : YubiKey) (mk : list Byte.byte)
    (keySpec : list slotSpec) : Prog unit :=
  for_range keySpec (fun ss =>
    r <- returned (configureSlot cmd k mk (slot ss) (touchPolicy ss));;
    match r with
    | Err err => Fail (wrapf "couldn't configure slot %v: %w" [opSlot (slot ss)] err)
    | Ok _ => Ret tt
    end).

Definition setup (cmd : SetupCmd) (k : YubiKey) : Prog unit :=
  r <- call (yk_Certificate k SlotAuthentication);;
  match r with
  | Ok _ =>
      if negb (ResetSecurityKey cmd)
      then Fail (errorf "security key already set up and --reset-security-key not specified" [])
      else
        r <- call (yk_Reset k);;
        check_nil r "couldn't reset security key: %w"
  | Err err =>
      if negb (errors_Is_ErrNotFound err)
      then Fail (wrapf "couldn't get certificate: %w" [] err)
      else Ret tt
  end;;
  r <- call (rand_Read 24);;
  bs <- check r "couldn't get random bytes: %w";;
  let mk := array24 bs in
  r <- call (yk_SetManagementKey k DefaultManagementKey mk);;
  check_nil r "couldn't set management key: %w";;
  r <- call (yk_SetMetadata k mk {| ManagementKey := Some mk |});;
  check_nil r "couldn't store management key: %w";;
  let pin := FormatUint (PIN cmd) in
  r <- call (yk_SetPIN k DefaultPIN pin);;
  check_nil r "couldn't set PIN: %w";;
  r <- call (yk_SetPUK k DefaultPUK pin);;
  check_nil r "couldn't set PUK: %w";;
  configureSlots cmd k mk (keySpec cmd).

Definition with_PIN (cmd : SetupCmd) (pin : Z) : SetupCmd :=
  {| Card := Card cmd;
     ResetSecurityKey := ResetSecurityKey cmd;
     PIN := pin;
     AllTouchPolicies := AllTouchPolicies cmd |}.

Definition Run (cmd : SetupCmd) : Prog unit :=
  r <- call zap_NewDevelopment;;
  log <- check r "couldn't init logger: %w";;
  defer
    (pin <- (if PIN cmd =? 0 then interactivePIN else Ret (PIN cmd));;
     let cmd := with_PIN cmd pin in
     if (PIN cmd <? 100000) || (99999999 <? PIN cmd)
     then Fail (errorf "invalid PIN, must be 6-8 digits" [])
     else
       r <- call (getSecurityKey (Card cmd));;
       k <- check r "couldn't get security key: %w";;
       setup cmd k)
    (call (log_Sync log);; Ret tt).

End Setup.

(** ** Environments to run the command against *)

(** The answer "failed with [e]" to a call, where the call can fail. *)
Definition failure {X} (e : error) (c : Call X) : X -> X :=
  match c in Call X return X -> X with
  | zap_NewDevelopment => fun _ => Err e
  | log_Sync _ => fun _ => Some e
  | fmt_Print _ => fun x => x
  | fmt_Println => fun x => x
  | fmt_Printf _ _ => fun x => x
  | terminal_ReadPassword => fun _ => Err e
  | getSecurityKey _ => fun _ => Err e
  | yk_Certificate _ _ => fun _ => Err e
  | yk_Reset _ => fun _ => Some e
  | rand_Read _ => fun _ => Err e
  | yk_SetManagementKey _ _ _ => fun _ => Some e
  | yk_SetMetadata _ _ _ => fun _ => Some e
  | yk_SetPIN _ _ _ => fun _ => Some e
  | yk_SetPUK _ _ _ => fun _ => Some e
  | yk_GenerateKey _ _ _ _ => fun _ => Err e
  | ecdsa_GenerateKey => fun _ => Err e
  | rand_Int _ => fun _ => Err e
  | time_Now => fun x => x
  | x509_CreateCertificate _ _ _ _ => fun _ => Err e
  | x509_ParseCertificate _ => fun _ => Err e
  | yk_SetCertificate _ _ _ _ => fun _ => Some e
  | ssh_NewPublicKey _ => fun _ => Err e
  end.

(** [env] with the call number [n] (from 0) failing with [e]. *)
Definition failing_at (n : nat) (e : error) (env : Env) : Env :=
  fun tr X c =>
    if Nat.eqb (List.length tr) n then failure e c (env tr X c) else env tr X c.

(** Reads of the terminal, readings of the clock, and how many of a kind a
    trace holds. *)
Definition is_ReadPassword (ev : Event) : bool :=
  match ev_call ev with terminal_ReadPassword => true | _ => false end.

Definition is_Now (ev : Event) : bool :=
  match ev_call ev with time_Now => true | _ => false end.

Definition count (f : Event -> bool) (tr : Trace) : nat :=
  List.length (filter f tr).

(** A device in working order: the operator types [entries] one after the
    other, the clock shows the instants [clock] one after the other, on a
    host whose local zone is UTC, and the query of the authentication slot
    answers [query]. *)
Definition working (entries : list string) (clock : list Z)
    (query : result Certificate) : Env :=
  fun tr X c =>
    match c in Call X return X with
    | zap_NewDevelopment => Ok (logger 0)
    | log_Sync _ => None
    | fmt_Print _ => tt
    | fmt_Println => tt
    | fmt_Printf _ _ => tt
    | terminal_ReadPassword => Ok (nth (count is_ReadPassword tr) entries "")
    | getSecurityKey _ => Ok (yubikey 1)
    | yk_Certificate _ _ => query
    | yk_Reset _ => None
    | rand_Read n => Ok (repeat Byte.x2a n)
    | yk_SetManagementKey _ _ _ => None
    | yk_SetMetadata _ _ _ => None
    | yk_SetPIN _ _ _ => None
    | yk_SetPUK _ _ _ => None
    | yk_GenerateKey _ _ _ _ => Ok (devicePub (Z.of_nat (List.length tr)))
    | ecdsa_GenerateKey => Ok (hostPriv (Z.of_nat (List.length tr)))
    | rand_Int max => Ok (Z.of_nat (List.length tr) mod max)
    | time_Now => UTC (nth (count is_Now tr) clock 0)
    | x509_CreateCertificate _ _ _ _ => Ok [Byte.x30]
    | x509_ParseCertificate _ =>
        Ok {| Subject := {| CommonName := "SSH key";
                            Organization := [];
                            OrganizationalUnit := [] |};
              NotBefore := 0; NotAfter := 0; SerialNumber := None;
              KeyUsage := 0; CertPublicKey := None |}
    | yk_SetCertificate _ _ _ _ => None
    | ssh_NewPublicKey (devicePub id) =>
        Ok (sshPub ("ecdsa-sha2-nistp256 " ++ FormatUint id ++ LF)%string)
    end.

(** [env] on a host whose local zone is [loc]: the clock shows the same
    instants, read in [loc]. *)
Definition in_zone (loc : Location) (env : Env) : Env :=
  fun tr X c =>
    match c in Call X return X -> X with
    | time_Now => fun t => {| unixNano := unixNano t; location := loc |}
    | _ => fun x => x
    end (env tr X c).

(** A location with daylight saving time in 2026 and in 2090, on the dates
    and with the offsets of US Eastern time: five hours west of UTC, four
    from the second Sunday of March to the first Sunday of November. *)
Definition eastern : Location :=
  {| initial := -18000;
     transitions := [ (1772953200, -14400); (1793512800, -18000);
                      (3792985200, -14400); (3813544800, -18000) ] |}.

(** A command for the default card. *)
Definition aCmd (pin : Z) (all reset : bool) : SetupCmd :=
  {| Card := ""; ResetSecurityKey := reset; PIN := pin; AllTouchPolicies := all |}.

(** ** Invariants of traces

    [always P acc p]: every call that [p] makes, with whatever answer,
    satisfies [P] of the events before it ([acc], then those of [p]). *)
Fixpoint always {A} (P : Trace -> Event -> Prop) (acc : Trace) (p : Prog A) : Prop :=
  match p with
  | Do c k => forall x, P acc (Ev c x) /\ always P (acc ++ [Ev c x]) (k x)
  | _ => True
  end.

(** [P] holds of every event of [tr] together with the events before it. *)
Definition throughout (P : Trace -> Event -> Prop) (tr : Trace) : Prop :=
  forall l1 ev l2, tr = l1 ++ ev :: l2 -> P l1 ev.

(** [P] only looks at the most recent events. *)
Definition recent (P : Trace -> Event -> Prop) : Prop :=
  forall l0 l ev, P l ev -> P (l0 ++ l) ev.

(** ** Which function makes which calls *)

Inductive Origin := ByRun | BySetup | ByConfigureSlot.

(** The function of the command whose body contains the call
    ([interactivePIN] counted with [Run]). *)
Definition origin (ev : Event) : Origin :=
  match ev_call ev with
  | zap_NewDevelopment | log_Sync _ | fmt_Print _ | fmt_Println
  | terminal_ReadPassword | getSecurityKey _ => ByRun
  | yk_Certificate _ _ | yk_Reset _ | rand_Read _ | yk_SetManagementKey _ _ _
  | yk_SetMetadata _ _ _ | yk_SetPIN _ _ _ | yk_SetPUK _ _ _ => BySetup
  | yk_GenerateKey _ _ _ _ | ecdsa_GenerateKey | rand_Int _ | time_Now
  | x509_CreateCertificate _ _ _ _ | x509_ParseCertificate _
  | yk_SetCertificate _ _ _ _ | ssh_NewPublicKey _ | fmt_Printf _ _ => ByConfigureSlot
  end.

(** ** Observations on traces *)

(** The slot and the parameters of an on-device key generation. *)
Definition generated_key (ev : Event) : option (Slot * Key) :=
  match ev_call ev with
  | yk_GenerateKey _ _ slot opts => Some (slot, opts)
  | _ => None
  end.

(** The template of a certificate that is built. *)
Definition built_certificate (ev : Event) : option Certificate :=
  match ev_call ev with
  | x509_CreateCertificate template _ _ _ => Some template
  | _ => None
  end.

(** The format and operands of a [fmt.Printf]. *)
Definition printed (ev : Event) : option (string * list string) :=
  match ev_call ev with
  | fmt_Printf format args => Some (format, args)
  | _ => None
  end.

(** What the operator typed, entry by entry. *)
Definition entry (ev : Event) : list (result string) :=
  match ev_call ev in Call X return X -> list (result string) with
  | terminal_ReadPassword => fun r => [r]
  | _ => fun _ => []
  end (ev_resp ev).

Definition entries (tr : Trace) : list (result string) := flat_map entry tr.

(** Calls that reach the security key. *)
Definition is_device (ev : Event) : bool :=
  match ev_call ev with
  | getSecurityKey _ | yk_Certificate _ _ | yk_Reset _
  | yk_SetManagementKey _ _ _ | yk_SetMetadata _ _ _ | yk_SetPIN _ _ _
  | yk_SetPUK _ _ _ | yk_GenerateKey _ _ _ _ | yk_SetCertificate _ _ _ _ => true
  | _ => false
  end.

(** Calls that change the state of the security key. *)
Definition is_mutation (ev : Event) : bool :=
  match ev_call ev with
  | yk_Reset _ | yk_SetManagementKey _ _ _ | yk_SetMetadata _ _ _
  | yk_SetPIN _ _ _ | yk_SetPUK _ _ _ | yk_GenerateKey _ _ _ _
  | yk_SetCertificate _ _ _ _ => true
  | _ => false
  end.

(** [rand.Int(rand.Reader, max)] answered within [[0, max)], its contract. *)
Definition random_in_bounds (ev : Event) : Prop :=
  match ev_call ev in Call X return X -> Prop with
  | rand_Int max =>
      fun r => match r with Ok x => 0 <= x < max | Err _ => True end
  | _ => fun _ => True
  end (ev_resp ev).

(** The first line that [configureSlot] prints. *)
Definition key_line_format : string :=
  ("🔑 Generated SSH key, touch policy: %s" ++ LF)%string.

(** ** The classes of errors

    The command reports every failure as a formatted message; the classes
    are told apart by the message. *)

(** A secret that is malformed, out of range or not confirmed. *)
Definition is_ValidationError (e : error) : bool :=
  match e with
  | errorf format _ =>
      String.eqb format "invalid PIN, must be 6-8 digits"
      || String.eqb format "PIN/PUK entries not equal"
  | wrapf format _ _ => String.eqb format "invalid characters: %w"
  | _ => false
  end.

(** The terminal could not be read. *)
Definition is_read_failure (e : error) : bool :=
  match e with
  | wrapf format _ _ => String.eqb format "couldn't read PIN/PUK: %w"
  | _ => false
  end.

(** The authentication slot holds a certificate and no overwrite was asked. *)
Definition is_AlreadyProvisionedError (e : error) : bool :=
  match e with
  | errorf format _ =>
      String.eqb format
        "security key already set up and --reset-security-key not specified"
  | _ => false
  end.

(** The security key is reached: some call of the trace goes to it. *)
Definition touches_device (tr : Trace) : bool := existsb is_device tr.

(** The logger was set up. *)
Definition logger_started (tr : Trace) : bool :=
  match tr with
  | ev :: _ =>
      match ev_call ev in Call X return X -> bool with
      | zap_NewDevelopment => fun r => match r with Ok _ => true | Err _ => false end
      | _ => fun _ => false
      end (ev_resp ev)
  | [] => false
  end.

(** What follows a passed validation: no further entry is read, and a
    failure is none of the validator's. *)
Definition after_validation (rest : Trace) (r : result unit) : Prop :=
  entries rest = []
  /\ forall e, r = Err e -> is_ValidationError e = false /\ is_read_failure e = false.

(** The runs of [Run], path by path up to the first call to the device. *)
Inductive Run_outcome (cmd : SetupCmd) : Trace -> result unit -> Prop :=
| logger_fails e :
    Run_outcome cmd
      [Ev zap_NewDevelopment (Err e)]
      (Err (wrapf "couldn't init logger: %w" [] e))
| flag_out_of_range log s :
    PIN cmd <> 0 -> ~ 100000 <= PIN cmd <= 99999999 ->
    Run_outcome cmd
      [Ev zap_NewDevelopment (Ok log); Ev (log_Sync log) s]
      (Err (errorf "invalid PIN, must be 6-8 digits" []))
| flag_accepted log x rest r :
    PIN cmd <> 0 -> 100000 <= PIN cmd <= 99999999 ->
    after_validation rest r ->
    Run_outcome cmd
      (Ev zap_NewDevelopment (Ok log) :: Ev (getSecurityKey (Card cmd)) x :: rest)
      r
| first_read_fails log e s :
    PIN cmd = 0 ->
    Run_outcome cmd
      [Ev zap_NewDevelopment (Ok log);
       Ev (fmt_Print "Enter a new PIN/PUK (6-8 digits): ") tt;
       Ev terminal_ReadPassword (Err e); Ev fmt_Println tt;
       Ev (log_Sync log) s]
      (Err (wrapf "couldn't read PIN/PUK: %w" [] e))
| not_numeric log rawPIN e s :
    PIN cmd = 0 -> ParseUint rawPIN = Err e ->
    Run_outcome cmd
      [Ev zap_NewDevelopment (Ok log);
       Ev (fmt_Print "Enter a new PIN/PUK (6-8 digits): ") tt;
       Ev terminal_ReadPassword (Ok rawPIN); Ev fmt_Println tt;
       Ev (log_Sync log) s]
      (Err (wrapf "invalid characters: %w" [] e))
| second_read_fails log rawPIN pin e s :
    PIN cmd = 0 -> ParseUint rawPIN = Ok pin ->
    Run_outcome cmd
      [Ev zap_NewDevelopment (Ok log);
       Ev (fmt_Print "Enter a new PIN/PUK (6-8 digits): ") tt;
       Ev terminal_ReadPassword (Ok rawPIN); Ev fmt_Println tt;
       Ev (fmt_Print "Repeat PIN/PUK: ") tt;
       Ev terminal_ReadPassword (Err e); Ev fmt_Println tt;
       Ev (log_Sync log) s]
      (Err (wrapf "couldn't read PIN/PUK: %w" [] e))
| entries_differ log rawPIN pin repeat s :
    PIN cmd = 0 -> ParseUint rawPIN = Ok pin -> repeat <> rawPIN ->
    Run_outcome cmd
      [Ev zap_NewDevelopment (Ok log);
       Ev (fmt_Print "Enter a new PIN/PUK (6-8 digits): ") tt;
       Ev terminal_ReadPassword (Ok rawPIN); Ev fmt_Println tt;
       Ev (fmt_Print "Repeat PIN/PUK: ") tt;
       Ev terminal_ReadPassword (Ok repeat); Ev fmt_Println tt;
       Ev (log_Sync log) s]
      (Err (errorf "PIN/PUK entries not equal" []))
| entry_out_of_range log rawPIN pin s :
    PIN cmd = 0 -> ParseUint rawPIN = Ok pin -> ~ 100000 <= pin <= 99999999 ->
    Run_outcome cmd
      [Ev zap_NewDevelopment (Ok log);
       Ev (fmt_Print "Enter a new PIN/PUK (6-8 digits): ") tt;
       Ev terminal_ReadPassword (Ok rawPIN); Ev fmt_Println tt;
       Ev (fmt_Print "Repeat PIN/PUK: ") tt;
       Ev terminal_ReadPassword (Ok rawPIN); Ev fmt_Println tt;
       Ev (log_Sync log) s]
      (Err (errorf "invalid PIN, must be 6-8 digits" []))
| entry_accepted log rawPIN pin x rest r :
    PIN cmd = 0 -> ParseUint rawPIN = Ok pin -> 100000 <= pin <= 99999999 ->
    after_validation rest r ->
    Run_outcome cmd
      (Ev zap_NewDevelopment (Ok log)
       :: Ev (fmt_Print "Enter a new PIN/PUK (6-8 digits): ") tt
       :: Ev terminal_ReadPassword (Ok rawPIN) :: Ev fmt_Println tt
       :: Ev (fmt_Print "Repeat PIN/PUK: ") tt
       :: Ev terminal_ReadPassword (Ok rawPIN) :: Ev fmt_Println tt
       :: Ev (getSecurityKey (Card cmd)) x :: rest)
      r.

(** The secret is valid and, when typed at the prompt, typed twice alike. *)
Definition secret_confirmed (cmd : SetupCmd) (tr : Trace) : Prop :=
  if PIN cmd =? 0
  then exists rawPIN pin,
         entries tr = [Ok rawPIN; Ok rawPIN]
         /\ ParseUint rawPIN = Ok pin
         /\ 100000 <= pin <= 99999999
  else 100000 <= PIN cmd <= 99999999.

(** The secret supplied parses and is within range: the flag, or the
    first entry typed at the prompt. *)
Definition secret_in_range (cmd : SetupCmd) (tr : Trace) : Prop :=
  if PIN cmd =? 0
  then exists rawPIN rest pin,
         entries tr = Ok rawPIN :: rest
         /\ ParseUint rawPIN = Ok pin
         /\ 100000 <= pin <= 99999999
  else 100000 <= PIN cmd <= 99999999.

(** The secret rotation begins: the next call draws the 24 random bytes. *)
Definition rotation_begins (rest : Trace) : Prop :=
  exists answer rest', rest = Ev (rand_Read 24) answer :: rest'.

Definition is_Ok {A} (r : result A) : bool :=
  match r with Ok _ => true | Err _ => false end.

Definition is_nil (r : option error) : bool :=
  match r with None => true | Some _ => false end.

(** The call returned no error. *)
Definition succeeded (ev : Event) : bool :=
  match ev_call ev in Call X return X -> bool with
  | zap_NewDevelopment => is_Ok
  | log_Sync _ => is_nil
  | fmt_Print _ => fun _ => true
  | fmt_Println => fun _ => true
  | fmt_Printf _ _ => fun _ => true
  | terminal_ReadPassword => is_Ok
  | getSecurityKey _ => is_Ok
  | yk_Certificate _ _ => is_Ok
  | yk_Reset _ => is_nil
  | rand_Read _ => is_Ok
  | yk_SetManagementKey _ _ _ => is_nil
  | yk_SetMetadata _ _ _ => is_nil
  | yk_SetPIN _ _ _ => is_nil
  | yk_SetPUK _ _ _ => is_nil
  | yk_GenerateKey _ _ _ _ => is_Ok
  | ecdsa_GenerateKey => is_Ok
  | rand_Int _ => is_Ok
  | time_Now => fun _ => true
  | x509_CreateCertificate _ _ _ _ => is_Ok
  | x509_ParseCertificate _ => is_Ok
  | yk_SetCertificate _ _ _ _ => is_nil
  | ssh_NewPublicKey _ => is_Ok
  end (ev_resp ev).

(** The calls of the secret rotation. *)
Definition is_rotation (ev : Event) : bool :=
  match ev_call ev with
  | rand_Read _ | yk_SetManagementKey _ _ _ | yk_SetMetadata _ _ _
  | yk_SetPIN _ _ _ | yk_SetPUK _ _ _ => true
  | _ => false
  end.

(** The array [mk] after [rand.Read(mk[:])] answered [bytes]. *)
Definition drawn (bytes : result (list Byte.byte)) : list Byte.byte :=
  match bytes with
  | Ok bs => array24 bs
  | Err _ => array24 []
  end.

(** The five steps of the secret rotation, with the answer each one got. *)
Definition rotation_steps (k : YubiKey) (pin : string)
    (bytes : result (list Byte.byte)) (a_mk a_md a_pin a_puk : option error) : Trace :=
  [ Ev (rand_Read 24) bytes;
    Ev (yk_SetManagementKey k DefaultManagementKey (drawn bytes)) a_mk;
    Ev (yk_SetMetadata k (drawn bytes) {| ManagementKey := Some (drawn bytes) |}) a_md;
    Ev (yk_SetPIN k DefaultPIN pin) a_pin;
    Ev (yk_SetPUK k DefaultPUK pin) a_puk ].

(** The slots for which a key was generated, with the touch policy asked,
    in the order of the calls. *)
Definition generated (tr : Trace) : list slotSpec :=
  flat_map (fun ev =>
              match generated_key ev with
              | Some (s, opts) => [mkSlotSpec s (TouchPolicy_ opts)]
              | None => []
              end) tr.

(** The slots in which a certificate was stored with success. *)
Definition stored_slot (ev : Event) : list Slot :=
  match ev_call ev in Call X return X -> list Slot with
  | yk_SetCertificate _ _ s _ =>
      fun r => match r with None => [s] | Some _ => [] end
  | _ => fun _ => []
  end (ev_resp ev).

Definition stored (tr : Trace) : list Slot := flat_map stored_slot tr.

(** What [fmt.Printf] wrote, call by call. *)
Definition output (tr : Trace) : list (string * list string) :=
  flat_map (fun ev => match printed ev with Some p => [p] | None => [] end) tr.

(** The two [fmt.Printf] calls of each slot of [ks], with the SSH keys
    [keys]. *)
Definition key_lines (ks : list slotSpec) (keys : list string)
    : list (string * list string) :=
  flat_map (fun p : slotSpec * string =>
              [ (key_line_format, [map_index touchStringMap (touchPolicy (fst p))]);
                (snd p, []) ])
           (combine ks keys).

(** The trace ends with a call that failed, the only one that did. *)
Definition stops_at_failure (tr : Trace) : Prop :=
  exists l ev, tr = l ++ [ev]
               /\ succeeded ev = false
               /\ Forall (fun ev' => succeeded ev' = true) l.

(** One slot configured, or not. *)
Definition slot_configured (ss : slotSpec) (new : Trace) (r : result unit) : Prop :=
  generated new = [ss]
  /\ Forall (fun ev => origin ev = ByConfigureSlot) new
  /\ match r with
     | Ok _ =>
         stored new = [slot ss]
         /\ Forall (fun ev => succeeded ev = true) new
         /\ exists key, output new = key_lines [ss] [key]
     | Err _ =>
         output new = []
         /\ (stored new = [] \/ stored new = [slot ss])
         /\ stops_at_failure new
     end.

(** The loop over the table [ks]: all slots configured, or the slots before
    number [n] configured and that one not. *)
Definition slots_configured (ks : list slotSpec) (new : Trace) (r : result unit) : Prop :=
  Forall (fun ev => origin ev = ByConfigureSlot) new
  /\ match r with
     | Ok _ =>
         generated new = ks
         /\ stored new = map slot ks
         /\ Forall (fun ev => succeeded ev = true) new
         /\ exists keys, List.length keys = List.length ks
                         /\ output new = key_lines ks keys
     | Err e =>
         exists n ss cause keys m,
           nth_error ks n = Some ss
           /\ e = wrapf "couldn't configure slot %v: %w" [opSlot (slot ss)] cause
           /\ generated new = firstn (S n) ks
           /\ (m = n \/ m = S n)
           /\ stored new = map slot (firstn m ks)
           /\ List.length keys = n
           /\ output new = key_lines (firstn n ks) keys
           /\ stops_at_failure new
     end.

(** ** Statements about runs *)

(** A key that is generated uses EC P-256 and the PIN policy [PINPolicyOnce]. *)
Definition key_is_EC256_once (_ : Trace) (ev : Event) : Prop :=
  forall slot opts, generated_key ev = Some (slot, opts) ->
    Algorithm_ opts = AlgorithmEC256 /\ PINPolicy_ opts = PINPolicyOnce.

(** What the code does for a certificate: the serial number is the answer
    of [rand.Int] for the bound [2^128], asked just before two readings of
    the clock; [NotAfter] is 64 years after the first reading, on the
    calendar of its location, and [NotBefore] is the second. *)
Definition certificate_as_built (h : Trace) (ev : Event) : Prop :=
  forall t, built_certificate ev = Some t ->
    CommonName (Subject t) = "SSH key"
    /\ (exists l0 serial now1 now2,
           h = l0 ++ [Ev (rand_Int (2 ^ 128)) (Ok serial);
                      Ev time_Now now1; Ev time_Now now2]
           /\ SerialNumber t = Some serial
           /\ NotAfter t = AddDate now1 64 0 0
           /\ NotBefore t = now2
           /\ (now1 = now2 -> NotAfter t = AddDate (NotBefore t) 64 0 0)
           /\ (Forall random_in_bounds h -> 0 <= serial < 2 ^ 128))
    /\ KeyUsage t = Z.lor KeyUsageKeyAgreement KeyUsageDigitalSignature
    /\ (forall i, Z.testbit (KeyUsage t) i = true <-> i = 4 \/ i = 0).

(** The template [configureSlot] fills in for the serial number 10 and the
    clock readings [now1], then [now2]. *)
Definition demo_template (now1 now2 : Time) : Certificate :=
  {| Subject := {| CommonName := "SSH key"; Organization := [];
                   OrganizationalUnit := [] |};
     NotBefore := now2;
     NotAfter := AddDate now1 64 0 0;
     SerialNumber := Some 10;
     KeyUsage := 17;
     CertPublicKey := None |}.

(** The events of a slot up to the stored certificate: the key generated
    for [slot] with [touchPolicy], host-side work [mid], the certificate
    stored in [slot] and the device's public key turned into an SSH key. *)
Definition stored_events k mk slot touchPolicy pub cert sshKey (mid : Trace) : Trace :=
  Ev (yk_GenerateKey k mk slot (mkKey AlgorithmEC256 PINPolicyOnce touchPolicy)) (Ok pub)
  :: mid ++ [Ev (yk_SetCertificate k mk slot cert) None;
             Ev (ssh_NewPublicKey pub) (Ok sshKey)].

(** A line is printed only right after the events of a slot up to its
    stored certificate: the key line first, then the SSH key. *)
Definition printed_after_stored (h : Trace) (ev : Event) : Prop :=
  forall format args, printed ev = Some (format, args) ->
    exists l0 k mk slot touchPolicy pub cert sshKey mid,
      Forall (fun e => is_device e = false) mid
      /\ ((format = key_line_format
           /\ args = [map_index touchStringMap touchPolicy]
           /\ h = l0 ++ stored_events k mk slot touchPolicy pub cert sshKey mid)
          \/ (format = ssh_MarshalAuthorizedKey sshKey
              /\ args = []
              /\ h = l0 ++ stored_events k mk slot touchPolicy pub cert sshKey mid
                        ++ [Ev (fmt_Printf key_line_format
                                  [map_index touchStringMap touchPolicy]) tt])).

(** An error that the validator does not produce. *)
Definition not_of_validator (e : error) : Prop :=
  is_ValidationError e = false /\ is_read_failure e = false.

(** The runs of [setup] through the device guard. *)
Definition guarded (cmd : SetupCmd) (k : YubiKey) (new : Trace) (r : result unit) : Prop :=
  exists query rest,
    new = Ev (yk_Certificate k SlotAuthentication) query :: rest
    /\ match query with
       | Ok _ =>
           if ResetSecurityKey cmd
           then exists answer rest',
                  rest = Ev (yk_Reset k) answer :: rest'
                  /\ match answer with
                     | Some e =>
                         rest' = []
                         /\ r = Err (wrapf "couldn't reset security key: %w" [] e)
                     | None => rotation_begins rest'
                     end
           else rest = []
                /\ filter is_mutation new = []
                /\ exists e, r = Err e /\ is_AlreadyProvisionedError e = true
       | Err e =>
           if errors_Is_ErrNotFound e
           then rotation_begins rest
           else rest = [] /\ r = Err (wrapf "couldn't get certificate: %w" [] e)
       end.

(** The slots a run of [setup] generates keys for. *)
Definition slots_counted (cmd : SetupCmd) (new : Trace) (r : result unit) : Prop :=
  (exists n, generated new = firstn n (keySpec cmd))
  /\ (r = Ok tt ->
      generated new = keySpec cmd
      /\ stored new = map slot (keySpec cmd)
      /\ exists keys, List.length keys = List.length (keySpec cmd)
                      /\ output new = key_lines (keySpec cmd) keys).


(** ** Decimal strings *)

(** ['0' <= c && c <= '9'], the test of the digit loop of [ParseUint]. *)
Definition is_digit (c : ascii) : bool :=
  let b := Z.of_N (N_of_ascii c) in (48 <=? b) && (b <=? 57).

Fixpoint all_digits (s : string) : bool :=
  match s with
  | EmptyString => true
  | String c rest => is_digit c && all_digits rest
  end.

(** [s] without its leading zeros; a string of zeros only becomes ["0"]. *)
Fixpoint strip (s : string) : string :=
  match s with
  | EmptyString => EmptyString
  | String c rest => if Ascii.eqb c "0" then strip rest else s
  end.

Definition strip_zeros (s : string) : string :=
  match strip s with
  | EmptyString => "0"
  | s' => s'
  end.

(** ** More observations on traces *)

(** Calls to the terminal: the prompts and the reads of [interactivePIN]. *)
Definition is_terminal (ev : Event) : bool :=
  match ev_call ev with
  | fmt_Print _ | fmt_Println | terminal_ReadPassword => true
  | _ => false
  end.

Definition is_sync (ev : Event) : bool :=
  match ev_call ev with log_Sync _ => true | _ => false end.

Definition is_reset (ev : Event) : bool :=
  match ev_call ev with yk_Reset _ => true | _ => false end.

(** The old and the new value of a PIN or PUK that is set. *)
Definition secret_set (ev : Event) : option (string * string) :=
  match ev_call ev with
  | yk_SetPIN _ old new | yk_SetPUK _ old new => Some (old, new)
  | _ => None
  end.




(** The error a call answered. *)
Definition cause {A} (r : result A) : option error :=
  match r with Ok _ => None | Err e => Some e end.

Definition failure_of (ev : Event) : option error :=
  match ev_call ev in Call X return X -> option error with
  | zap_NewDevelopment => cause
  | log_Sync _ => fun r => r
  | fmt_Print _ => fun _ => None
  | fmt_Println => fun _ => None
  | fmt_Printf _ _ => fun _ => None
  | terminal_ReadPassword => cause
  | getSecurityKey _ => cause
  | yk_Certificate _ _ => cause
  | yk_Reset _ => fun r => r
  | rand_Read _ => cause
  | yk_SetManagementKey _ _ _ => fun r => r
  | yk_SetMetadata _ _ _ => fun r => r
  | yk_SetPIN _ _ _ => fun r => r
  | yk_SetPUK _ _ _ => fun r => r
  | yk_GenerateKey _ _ _ _ => cause
  | ecdsa_GenerateKey => cause
  | rand_Int _ => cause
  | time_Now => fun _ => None
  | x509_CreateCertificate _ _ _ _ => cause
  | x509_ParseCertificate _ => cause
  | yk_SetCertificate _ _ _ _ => fun r => r
  | ssh_NewPublicKey _ => cause
  end (ev_resp ev).

(** [errors.Unwrap], repeated: [e] is [c] or wraps an error that is or
    wraps [c]. *)
Inductive wraps : error -> error -> Prop :=
| wraps_self e : wraps e e
| wraps_inner format args e c : wraps e c -> wraps (wrapf format args e) c.

(** The query of the authentication slot answered "not found". *)
Definition is_not_found (ev : Event) : bool :=
  match ev_call ev in Call X return X -> bool with
  | yk_Certificate _ _ =>
      fun r => match r with Ok _ => false | Err e => errors_Is_ErrNotFound e end
  | _ => fun _ => false
  end (ev_resp ev).

(** The certificate a call stores, with handle, key and slot. *)
Definition certificate_set (ev : Event)
    : option (YubiKey * list Byte.byte * Slot * Certificate) :=
  match ev_call ev with
  | yk_SetCertificate k key s cert => Some (k, key, s, cert)
  | _ => None
  end.

(** ** How [Run] composes the validator and [setup] *)

(** The secret [Run] hands to [setup]: within range, and either the flag
    with the terminal untouched, or the value of the entry typed twice. *)
Definition secret_from (cmd : SetupCmd) (pre : Trace) (pin : Z) : Prop :=
  100000 <= pin <= 99999999
  /\ if PIN cmd =? 0
     then exists rawPIN,
            entries pre = [Ok rawPIN; Ok rawPIN] /\ ParseUint rawPIN = Ok pin
     else pin = PIN cmd /\ pre = [].

(** ** Stopping at the first failure *)

Definition is_newline (ev : Event) : bool :=
  match ev_call ev with fmt_Println => true | _ => false end.

(** A call after which the command goes on: one that succeeded, or the
    query of the authentication slot answering that there is no
    certificate. *)
Definition tolerated (ev : Event) : bool :=
  succeeded ev || is_not_found ev.

(** The calls still made once a call has failed: the [fmt.Println] that
    ends a prompt, and the deferred [log.Sync]. *)
Definition closing (ev : Event) : bool :=
  is_newline ev || is_sync ev.

(** After each call that is not tolerated only closing calls follow. *)
Fixpoint fails_fast (tr : Trace) : bool :=
  match tr with
  | [] => true
  | ev :: rest => (forallb closing rest || tolerated ev) && fails_fast rest
  end.

(** A run of [setup] in which every call but the last is tolerated. *)
Definition clean_but_last (cmd : SetupCmd) (k : YubiKey) (new : Trace)
    (r : result unit) : Prop :=
  Forall (fun ev => tolerated ev = true) (removelast new).

(** [Run] ends before [setup]: only calls of its own, and an error. *)
Definition Run_stops (cmd : SetupCmd) (tr : Trace) (r : result unit) : Prop :=
  Forall (fun ev => origin ev = ByRun) tr
  /\ (exists e, r = Err e)
  /\ (PIN cmd <> 0 -> Forall (fun ev => is_terminal ev = false) tr)
  /\ fails_fast tr = true.

(** [Run] reaches [setup]: the logger, the terminal calls [pre], the
    security key [k], then a run [new] of [setup] with the validated secret,
    of which [S] holds, then [log.Sync]. *)
Definition Run_reaches (S : SetupCmd -> YubiKey -> Trace -> result unit -> Prop)
    (cmd : SetupCmd) (tr : Trace) (r : result unit) : Prop :=
  exists log pre pin k new s,
    tr = Ev zap_NewDevelopment (Ok log)
         :: pre ++ Ev (getSecurityKey (Card cmd)) (Ok k)
         :: new ++ [Ev (log_Sync log) s]
    /\ Forall (fun ev => is_terminal ev = true) pre
    /\ secret_from cmd pre pin
    /\ S (with_PIN cmd pin) k new r.

(** ** What [setup] keeps *)

(** [setup] makes no call of [Run]'s own. *)
Definition stays_in_setup (cmd : SetupCmd) (k : YubiKey) (new : Trace)
    (r : result unit) : Prop :=
  Forall (fun ev => origin ev <> ByRun) new.

(** Every PIN or PUK that is set is the decimal form of the command's PIN. *)
Definition sets_secret (cmd : SetupCmd) (k : YubiKey) (new : Trace)
    (r : result unit) : Prop :=
  Forall (fun ev => origin ev <> ByRun) new
  /\ Forall (fun ev => forall old new',
                 secret_set ev = Some (old, new') ->
                 new' = FormatUint (PIN cmd)) new.

(** A factory reset is made at most once, with the overwrite flag, right
    after the query found a certificate. *)
Definition reset_guarded (cmd : SetupCmd) (k : YubiKey) (new : Trace)
    (r : result unit) : Prop :=
  Forall (fun ev => origin ev <> ByRun) new
  /\ (filter is_reset new = []
      \/ (ResetSecurityKey cmd = true
          /\ exists cert answer rest,
               new = Ev (yk_Certificate k SlotAuthentication) (Ok cert)
                     :: Ev (yk_Reset k) answer :: rest
               /\ filter is_reset rest = [])).




(** [log.Sync] is deferred: it is the last call, made once, whenever the
    logger was set up. *)
Definition sync_deferred (tr : Trace) (r : result unit) : Prop :=
  (exists e, tr = [Ev zap_NewDevelopment (Err e)]
             /\ r = Err (wrapf "couldn't init logger: %w" [] e))
  \/ (exists log body s,
        tr = Ev zap_NewDevelopment (Ok log) :: body ++ [Ev (log_Sync log) s]
        /\ Forall (fun ev => is_sync ev = false) body).

(** The trace ends with a call whose error the returned error wraps. *)
Definition explains (new : Trace) (e : error) : Prop :=
  exists l ev c, new = l ++ [ev] /\ failure_of ev = Some c /\ wraps e c.

(** An error of [setup] is the already-provisioned error, or wraps the
    error of the last call made. *)
Definition error_explained (cmd : SetupCmd) (k : YubiKey) (new : Trace)
    (r : result unit) : Prop :=
  forall e, r = Err e -> is_AlreadyProvisionedError e = true \/ explains new e.

(** A run of [setup] that succeeds: but for a query that answers "not
    found", every call succeeded. *)
Definition all_succeeded (cmd : SetupCmd) (k : YubiKey) (new : Trace)
    (r : result unit) : Prop :=
  Forall (fun ev => origin ev <> ByRun) new
  /\ slots_counted cmd new r
  /\ (r = Ok tt ->
      Forall (fun ev => succeeded ev = true \/ is_not_found ev = true) new).

(** The certificate stored in a slot is the one parsed from the bytes that
    [x509.CreateCertificate] returned for the public key the device
    generated in that slot, signed by the host key generated for it, whose
    public key is that of the issuer named after the tool and its version. *)
Definition certificate_chain (version : string) (h : Trace) (ev : Event) : Prop :=
  forall k mk slot cert,
    certificate_set ev = Some (k, mk, slot, cert) ->
    exists l0 opts pub priv serial now1 now2 template parent der,
      h = l0 ++ [ Ev (yk_GenerateKey k mk slot opts) (Ok pub);
                  Ev ecdsa_GenerateKey (Ok priv);
                  Ev (rand_Int (2 ^ 128)) (Ok serial);
                  Ev time_Now now1;
                  Ev time_Now now2;
                  Ev (x509_CreateCertificate template parent pub priv) (Ok der);
                  Ev (x509_ParseCertificate der) (Ok cert) ]
      /\ Organization (Subject parent) = ["piv-agent"]
      /\ OrganizationalUnit (Subject parent) = [version]
      /\ CertPublicKey parent = Some priv.

(** ** The dialogue of [interactivePIN] *)

Definition prompts : list string :=
  ["Enter a new PIN/PUK (6-8 digits): "; "Repeat PIN/PUK: "].

(** One prompt, one read and one newline for each answer of the terminal. *)
Definition dialogue (reads : list (result string)) : Trace :=
  flat_map (fun pr : string * result string =>
              [ Ev (fmt_Print (fst pr)) tt;
                Ev terminal_ReadPassword (snd pr);
                Ev fmt_Println tt ])
           (combine prompts reads).

(** ** The guard and the rotation, step by step *)

(** The guard lets [setup] go on: the slot holds no certificate, or it
    holds one, overwriting was asked for and the reset succeeded. *)
Definition guard_passes (cmd : SetupCmd) (k : YubiKey) (guard : Trace) : Prop :=
  (exists e,
      guard = [Ev (yk_Certificate k SlotAuthentication) (Err e)]
      /\ errors_Is_ErrNotFound e = true)
  \/ (exists cert,
         ResetSecurityKey cmd = true
         /\ guard = [Ev (yk_Certificate k SlotAuthentication) (Ok cert);
                     Ev (yk_Reset k) None]).

(** The guard ends [setup]: the query failed otherwise than with "not
    found", or the slot holds a certificate and overwriting was not asked
    for, or the reset failed. *)
Definition guard_stops (cmd : SetupCmd) (k : YubiKey) (guard : Trace) : Prop :=
  (exists e,
      guard = [Ev (yk_Certificate k SlotAuthentication) (Err e)]
      /\ errors_Is_ErrNotFound e = false)
  \/ (exists cert,
         ResetSecurityKey cmd = false
         /\ guard = [Ev (yk_Certificate k SlotAuthentication) (Ok cert)])
  \/ (exists cert e,
         ResetSecurityKey cmd = true
         /\ guard = [Ev (yk_Certificate k SlotAuthentication) (Ok cert);
                     Ev (yk_Reset k) (Some e)]).

(** The format of the error of each step of the rotation. *)
Definition rotation_errors : list string :=
  [ "couldn't get random bytes: %w";
    "couldn't set management key: %w";
    "couldn't store management key: %w";
    "couldn't set PIN: %w";
    "couldn't set PUK: %w" ].

(** A run of the rotation after the guard passed: the first [n] steps, at
    least one, each but the last with success.  Either the last one made
    failed, nothing follows and [setup] returns its error, wrapped; or all
    five succeeded and the slots follow, the first key being generated
    with the new management key. *)
Definition rotation_made (cmd : SetupCmd) (k : YubiKey) (rest : Trace)
    (r : result unit) : Prop :=
  exists n bytes a_mk a_md a_pin a_puk slots,
    let steps := rotation_steps k (FormatUint (PIN cmd)) bytes a_mk a_md a_pin a_puk in
    rest = firstn n steps ++ slots
    /\ (1 <= n <= 5)%nat
    /\ Forall (fun ev => succeeded ev = true) (firstn (n - 1) steps)
    /\ Forall (fun ev => origin ev = ByConfigureSlot) slots
    /\ ((exists ev c format,
            nth_error steps (n - 1) = Some ev
            /\ failure_of ev = Some c
            /\ nth_error rotation_errors (n - 1) = Some format
            /\ slots = []
            /\ r = Err (wrapf format [] c))
        \/ (n = 5%nat
            /\ Forall (fun ev => succeeded ev = true) steps
            /\ exists opts a slots',
                 slots = Ev (yk_GenerateKey k (drawn bytes) SlotAuthentication opts) a
                         :: slots')).

(** The runs of [setup]: the guard, and when it passes the rotation. *)
Definition guard_then_rotation (cmd : SetupCmd) (k : YubiKey) (new : Trace)
    (r : result unit) : Prop :=
  exists guard rest,
    new = guard ++ rest
    /\ ((guard_stops cmd k guard /\ rest = [] /\ exists e, r = Err e)
        \/ (guard_passes cmd k guard /\ rotation_made cmd k rest r)).
(** ** Reasoning about runs *)

Unset Implicit Arguments.

Lemma run_bind {A B} (env : Env) (p : Prog A) (f : A -> Prog B) (tr : Trace) :
  run env (bind p f) tr =
  match run env p tr with
  | (tr', Ok a) => run env (f a) tr'
  | (tr', Err e) => (tr', Err e)
  end.
Proof.
  revert tr; induction p as [a | e | X c k IH]; intros tr; simpl; auto.
Qed.

(** A run only adds to the trace. *)
Lemma run_extends {A} (env : Env) (p : Prog A) (tr : Trace) :
  exists new, fst (run env p tr) = tr ++ new.
Proof.
  revert tr; induction p as [a | e | X c k IH]; intros tr; simpl.
  - exists []; now rewrite app_nil_r.
  - exists []; now rewrite app_nil_r.
  - destruct (IH (env tr X c) (tr ++ [Ev c (env tr X c)])) as [new H].
    exists (Ev c (env tr X c) :: new).
    now rewrite H, <- app_assoc.
Qed.

(** [post] speaks of the events a program adds, wherever it starts. *)
Lemma post_sound {A} (env : Env) (p : Prog A) (acc : Trace)
    (Q : Trace -> result A -> Prop) :
  post p acc Q ->
  forall tr0, exists new,
    run env p (tr0 ++ acc) = (tr0 ++ new, snd (run env p (tr0 ++ acc)))
    /\ Q new (snd (run env p (tr0 ++ acc))).
Proof.
  revert acc; induction p as [a | e | X c k IH]; intros acc H tr0; simpl in *.
  - exists acc; auto.
  - exists acc; auto.
  - specialize (H (env (tr0 ++ acc) X c)).
    destruct (IH _ _ H tr0) as [new [E HQ]].
    exists new. rewrite <- app_assoc in *. auto.
Qed.

Lemma post_run {A} (env : Env) (p : Prog A) (Q : Trace -> result A -> Prop) :
  post p [] Q ->
  forall tr0, exists new,
    run env p tr0 = (tr0 ++ new, snd (run env p tr0))
    /\ Q new (snd (run env p tr0)).
Proof.
  intros H tr0.
  destruct (post_sound env p [] Q H tr0) as [new HQ].
  rewrite app_nil_r in HQ. eauto.
Qed.

Lemma post_mono {A} (p : Prog A) (acc : Trace) (Q Q' : Trace -> result A -> Prop) :
  (forall tr r, Q tr r -> Q' tr r) -> post p acc Q -> post p acc Q'.
Proof.
  revert acc; induction p as [a | e | X c k IH]; intros acc HQ H; simpl in *; auto.
Qed.

Lemma post_frame {A} (p : Prog A) (l acc : Trace) (Q : Trace -> result A -> Prop) :
  post p acc Q ->
  post p (l ++ acc) (fun tr r => exists new, tr = l ++ new /\ Q new r).
Proof.
  revert acc; induction p as [a | e | X c k IH]; intros acc H; simpl in *; eauto.
  intros x. rewrite <- app_assoc. apply IH, H.
Qed.

Lemma post_bind {A B} (p : Prog A) (f : A -> Prog B) (acc : Trace)
    (Q : Trace -> result B -> Prop) :
  post p acc (fun tr r =>
    match r with
    | Ok a => post (f a) tr Q
    | Err e => Q tr (Err e)
    end) ->
  post (bind p f) acc Q.
Proof.
  revert acc; induction p as [a | e | X c k IH]; intros acc H; simpl in *; auto.
Qed.

Lemma post_returned {A} (p : Prog A) (acc : Trace)
    (Q : Trace -> result (result A) -> Prop) :
  post p acc (fun tr r => Q tr (Ok r)) -> post (returned p) acc Q.
Proof.
  revert acc; induction p as [a | e | X c k IH]; intros acc H; simpl in *; auto.
Qed.

Lemma post_defer {A} (p : Prog A) (d : Prog unit) (acc : Trace)
    (Q : Trace -> result A -> Prop) :
  post p acc (fun tr r =>
    post d tr (fun tr' r' =>
      match r' with
      | Ok _ => Q tr' r
      | Err e => Q tr' (Err e)
      end)) ->
  post (defer p d) acc Q.
Proof.
  revert acc; induction p as [a | e | X c k IH]; intros acc H; simpl in *.
  - apply post_bind. eapply post_mono; [| exact H]. intros tr [[] | e]; auto.
  - apply post_bind. eapply post_mono; [| exact H]. intros tr [[] | e']; auto.
  - intros x. apply IH, H.
Qed.

(** ** Invariants of traces *)

Lemma throughout_nil P : throughout P [].
Proof. intros l1 ev l2 H. destruct l1; discriminate. Qed.

Lemma throughout_snoc P (tr : Trace) (ev : Event) :
  throughout P tr -> P tr ev -> throughout P (tr ++ [ev]).
Proof.
  intros Htr Hev l1 ev' l2 E.
  destruct l2 as [| z l2' _] using rev_ind.
  - apply app_inj_tail in E. destruct E as [-> ->]. exact Hev.
  - change (l1 ++ ev' :: l2' ++ [z]) with (l1 ++ (ev' :: l2') ++ [z]) in E.
    rewrite app_assoc in E. apply app_inj_tail in E. destruct E as [E _].
    eapply Htr; eauto.
Qed.

Lemma throughout_Forall (P : Event -> Prop) (tr : Trace) :
  throughout (fun _ => P) tr <-> Forall P tr.
Proof.
  split.
  - intros H. apply Forall_forall. intros ev Hin.
    apply in_split in Hin. destruct Hin as [l1 [l2 E]]. eapply H; eauto.
  - intros H l1 ev l2 E. subst tr. apply Forall_app in H.
    destruct H as [_ H]. now inversion H.
Qed.

Lemma always_post {A} P (p : Prog A) (acc : Trace) :
  always P acc p -> throughout P acc ->
  post p acc (fun tr _ => throughout P tr).
Proof.
  revert acc; induction p as [a | e | X c k IH]; intros acc H Hacc; simpl in *; auto.
  intros x. destruct (H x) as [Hev Hk].
  apply IH; auto using throughout_snoc.
Qed.

Lemma always_frame {A} P (p : Prog A) (l0 acc : Trace) :
  recent P -> always P acc p -> always P (l0 ++ acc) p.
Proof.
  intros HP. revert acc; induction p as [a | e | X c k IH]; intros acc H; simpl in *; auto.
  intros x. destruct (H x) as [Hev Hk]. split; auto.
  rewrite <- app_assoc. auto.
Qed.

Lemma always_anywhere {A} P (p : Prog A) (acc : Trace) :
  recent P -> always P [] p -> always P acc p.
Proof.
  intros HP H. rewrite <- (app_nil_r acc). now apply always_frame.
Qed.

Lemma always_bind {A B} P (p : Prog A) (f : A -> Prog B) (acc : Trace) :
  recent P -> always P acc p -> (forall a, always P [] (f a)) ->
  always P acc (bind p f).
Proof.
  intros HP. revert acc; induction p as [a | e | X c k IH]; intros acc H Hf; simpl in *; auto.
  - rewrite <- (app_nil_r acc). now apply always_frame.
  - intros x. destruct (H x) as [Hev Hk]. split; auto.
Qed.

Lemma always_returned {A} P (p : Prog A) (acc : Trace) :
  always P acc p -> always P acc (returned p).
Proof.
  revert acc; induction p as [a | e | X c k IH]; intros acc H; simpl in *; auto.
  intros x. destruct (H x) as [Hev Hk]. split; auto.
Qed.

Lemma always_defer {A} P (p : Prog A) (d : Prog unit) (acc : Trace) :
  recent P -> always P acc p -> always P [] d -> always P acc (defer p d).
Proof.
  intros HP. revert acc; induction p as [a | e | X c k IH]; intros acc H Hd; simpl in *.
  - apply always_bind; simpl; auto.
    rewrite <- (app_nil_r acc). now apply always_frame.
  - apply always_bind; simpl; auto.
    rewrite <- (app_nil_r acc). now apply always_frame.
  - intros x. destruct (H x) as [Hev Hk]. split; auto.
Qed.

Lemma always_for_range {A} P (xs : list A) (body : A -> Prog unit) (acc : Trace) :
  recent P -> (forall x, always P [] (body x)) ->
  always P acc (for_range xs body).
Proof.
  intros HP Hbody. revert acc; induction xs as [| x xs IH]; intros acc; simpl; auto.
  apply always_bind; auto.
  rewrite <- (app_nil_r acc). now apply always_frame.
Qed.

(** Every run of a program that keeps [P] yields a trace that satisfies [P]
    throughout. *)
Lemma always_run {A} P (env : Env) (p : Prog A) :
  always P [] p -> throughout P (fst (run env p [])).
Proof.
  intros H.
  apply always_post in H; [| apply throughout_nil].
  destruct (post_run env p _ H []) as [new [E Hnew]].
  rewrite E. exact Hnew.
Qed.

Ltac exec_always tac :=
  cbn [always bind call check check_nil returned defer for_range app];
  lazymatch goal with
  | |- True => exact I
  | |- forall _, _ => intro; exec_always tac
  | |- _ /\ _ => split; [ tac | exec_always tac ]
  | |- always _ _ (bind (check ?r _) _) => destruct r; exec_always tac
  | |- always _ _ (bind (check_nil ?r _) _) => destruct r; exec_always tac
  | |- always _ _ (bind (match ?r with _ => _ end) _) => destruct r; exec_always tac
  | |- always _ _ (bind (if ?b then _ else _) _) => destruct b; exec_always tac
  | |- always _ _ (if ?b then _ else _) => destruct b; exec_always tac
  | |- _ => idtac
  end.

Section Lifting.

Variable version : string.
Variable P : Trace -> Event -> Prop.
Hypothesis P_recent : recent P.

Lemma always_configureSlots cmd k mk keySpec acc :
  (forall slot touchPolicy,
      always P [] (configureSlot version cmd k mk slot touchPolicy)) ->
  always P acc (configureSlots version cmd k mk keySpec).
Proof.
  intros Hslot. apply always_for_range; auto.
  intros ss. apply always_bind; auto.
  - apply always_returned, Hslot.
  - intros [[] | e]; exact I.
Qed.

Lemma always_setup cmd k :
  (forall h ev, origin ev = BySetup -> P h ev) ->
  (forall mk slot touchPolicy,
      always P [] (configureSlot version cmd k mk slot touchPolicy)) ->
  always P [] (setup version cmd k).
Proof.
  intros Hown Hslot. unfold setup.
  exec_always ltac:(apply Hown; reflexivity);
    apply always_configureSlots; auto.
Qed.

Lemma always_interactivePIN :
  (forall h ev, origin ev = ByRun -> P h ev) ->
  always P [] interactivePIN.
Proof.
  intros Hown. unfold interactivePIN.
  exec_always ltac:(apply Hown; reflexivity).
Qed.

Lemma always_Run cmd :
  (forall h ev, origin ev = ByRun -> P h ev) ->
  (forall h ev, origin ev = BySetup -> P h ev) ->
  (forall cmd k mk slot touchPolicy,
      always P [] (configureSlot version cmd k mk slot touchPolicy)) ->
  always P [] (Run version cmd).
Proof.
  intros Hrun Hsetup Hslot. unfold Run.
  exec_always ltac:(apply Hrun; reflexivity).
  apply always_defer; auto.
  - apply always_bind; auto.
    + apply always_anywhere; auto.
      destruct (PIN cmd =? 0); [apply always_interactivePIN; auto | exact I].
    + intros pin. cbv zeta.
      destruct ((PIN (with_PIN cmd pin) <? 100000) || (99999999 <? PIN (with_PIN cmd pin)));
        [exact I |].
      exec_always ltac:(apply Hrun; reflexivity).
      apply always_anywhere; auto. apply always_setup; auto.
  - exec_always ltac:(apply Hrun; reflexivity).
Qed.

End Lifting.

(** ** Key generation parameters *)

Lemma key_is_EC256_once_elsewhere h ev :
  origin ev <> ByConfigureSlot -> key_is_EC256_once h ev.
Proof.
  destruct ev as [X c x]. intros Ho slot opts H.
  destruct c; try discriminate H. now elim Ho.
Qed.

Lemma configureSlot_key_is_EC256_once version cmd k mk slot touchPolicy :
  always key_is_EC256_once [] (configureSlot version cmd k mk slot touchPolicy).
Proof.
  unfold configureSlot.
  exec_always ltac:(intros s o H; cbn [generated_key ev_call] in H;
                    try discriminate H; injection H as _ <-; split; reflexivity).
Qed.

(** C9: every on-device key that the command generates, in any run and for
    any slot and touch policy, uses algorithm EC P-256 and PIN policy
    "once". *)
Theorem C9_generated_keys_EC256_PINPolicyOnce :
  forall version env cmd ev slot opts,
    In ev (fst (run env (Run version cmd) [])) ->
    generated_key ev = Some (slot, opts) ->
    Algorithm_ opts = AlgorithmEC256 /\ PINPolicy_ opts = PINPolicyOnce.
Proof.
  intros version env cmd ev slot opts Hin Hev.
  assert (H : always key_is_EC256_once [] (Run version cmd)).
  { apply always_Run.
    - intros l0 l e He. exact He.
    - intros h e Ho. apply key_is_EC256_once_elsewhere. congruence.
    - intros h e Ho. apply key_is_EC256_once_elsewhere. congruence.
    - intros. apply configureSlot_key_is_EC256_once. }
  apply (always_run _ env) in H.
  apply in_split in Hin. destruct Hin as [l1 [l2 E]].
  exact (H l1 ev l2 E slot opts Hev).
Qed.

Ltac in_trace := vm_compute; repeat (try (left; reflexivity); right).

Lemma C9_witness :
  Algorithm_ (mkKey AlgorithmEC256 PINPolicyOnce TouchPolicyCached) = AlgorithmEC256
  /\ PINPolicy_ (mkKey AlgorithmEC256 PINPolicyOnce TouchPolicyCached) = PINPolicyOnce.
Proof.
  apply (C9_generated_keys_EC256_PINPolicyOnce "v1"
           (working [] [0; 1; 2; 3; 4; 5] (Err ErrNotFound))
           (aCmd 123456 true false)
           (Ev (yk_GenerateKey (yubikey 1) (repeat Byte.x2a 24) SlotAuthentication
                  (mkKey AlgorithmEC256 PINPolicyOnce TouchPolicyCached))
               (Ok (devicePub 8)))
           SlotAuthentication).
  - in_trace.
  - reflexivity.
Defined.

(** ** Certificates *)

Lemma KeyUsage_bits (i : Z) :
  Z.testbit (Z.lor KeyUsageKeyAgreement KeyUsageDigitalSignature) i = true
  <-> i = 4 \/ i = 0.
Proof.
  change (Z.lor KeyUsageKeyAgreement KeyUsageDigitalSignature) with 17.
  split.
  - intros H.
    destruct (Z_lt_le_dec i 0) as [Hneg | Hpos].
    { rewrite Z.testbit_neg_r in H by assumption. discriminate. }
    destruct (Z_lt_le_dec i 5) as [Hlt | Hge].
    + assert (Hi : i = 0 \/ i = 1 \/ i = 2 \/ i = 3 \/ i = 4) by lia.
      destruct Hi as [-> | [-> | [-> | [-> | ->]]]];
        (discriminate H || auto).
    + rewrite Z.bits_above_log2 in H; [discriminate | lia |].
      change (Z.log2 17) with 4. lia.
  - intros [-> | ->]; reflexivity.
Qed.

Lemma certificate_as_built_recent : recent certificate_as_built.
Proof.
  intros l0 l ev H t Ht.
  destruct (H t Ht) as [Hcn [[l1 [serial [now1 [now2 [E [Hs [Ha [Hb [Hw Hr]]]]]]]]] Hku]].
  split; [exact Hcn | split; [| exact Hku]].
  exists (l0 ++ l1), serial, now1, now2.
  split; [rewrite E, app_assoc; reflexivity |].
  do 4 (split; [assumption |]).
  intros HF. apply Hr. apply Forall_app in HF. apply HF.
Qed.

Lemma certificate_as_built_elsewhere h ev :
  origin ev <> ByConfigureSlot -> certificate_as_built h ev.
Proof.
  destruct ev as [X c x]. intros Ho t H.
  destruct c; try discriminate H. now elim Ho.
Qed.

Lemma configureSlot_certificate_as_built version cmd k mk slot touchPolicy :
  always certificate_as_built [] (configureSlot version cmd k mk slot touchPolicy).
Proof.
  unfold configureSlot.
  exec_always ltac:(intros t H; cbn [built_certificate ev_call] in H;
                    try discriminate H; injection H as <-).
  cbn [CommonName Subject SerialNumber NotAfter NotBefore KeyUsage].
  split; [reflexivity | split; [| split; [reflexivity | apply KeyUsage_bits]]].
  eexists [_; _], _, _, _.
  do 4 (split; [reflexivity |]).
  split; [intros ->; reflexivity |].
  intros HF. inversion HF as [| ? ? _ HF1]. inversion HF1 as [| ? ? _ HF2].
  inversion HF2 as [| ? ? Hb _]. exact Hb.
Qed.

(** C5: every certificate the command builds has subject common name
    "SSH key", key usage exactly KeyAgreement and DigitalSignature, and a
    serial number that is the answer of [rand.Int] for the bound [2^128]
    (so within [[0, 2^128)] when [rand.Int] keeps its contract).  Its
    validity is taken from the clock at the moment the certificate is
    built, in two readings, one right after the other and right before
    [x509.CreateCertificate]: it starts at the second reading, and it ends
    64 years after the first, as [AddDate(64, 0, 0)] counts them on the
    calendar of the location of that reading; so it ends 64 years after
    it starts when the two readings are the same. *)
Theorem C5_certificate_template :
  forall version env cmd l1 ev l2 t,
    fst (run env (Run version cmd) []) = l1 ++ ev :: l2 ->
    built_certificate ev = Some t ->
    CommonName (Subject t) = "SSH key"
    /\ (exists l0 serial now1 now2,
           l1 = l0 ++ [Ev (rand_Int (2 ^ 128)) (Ok serial);
                       Ev time_Now now1; Ev time_Now now2]
           /\ SerialNumber t = Some serial
           /\ NotAfter t = AddDate now1 64 0 0
           /\ NotBefore t = now2
           /\ (now1 = now2 -> NotAfter t = AddDate (NotBefore t) 64 0 0)
           /\ (Forall random_in_bounds l1 -> 0 <= serial < 2 ^ 128))
    /\ KeyUsage t = Z.lor KeyUsageKeyAgreement KeyUsageDigitalSignature
    /\ (forall i, Z.testbit (KeyUsage t) i = true <-> i = 4 \/ i = 0).
Proof.
  intros version env cmd l1 ev l2 t E Ht.
  assert (H : always certificate_as_built [] (Run version cmd)).
  { apply always_Run.
    - apply certificate_as_built_recent.
    - intros h e Ho. apply certificate_as_built_elsewhere. congruence.
    - intros h e Ho. apply certificate_as_built_elsewhere. congruence.
    - intros. apply configureSlot_certificate_as_built. }
  apply (always_run _ env) in H.
  exact (H l1 ev l2 E t Ht).
Qed.

Lemma C5_witness :
  let env := in_zone eastern
               (working [] [1793718000000000000; 1793718000000000000]
                  (Err ErrNotFound)) in
  let tr := fst (run env (Run "v1" (aCmd 123456 false false)) []) in
  let now := {| unixNano := 1793718000000000000; location := eastern |} in
  let t := demo_template now now in
  (tr = firstn 13 tr ++ nth 13 tr (Ev time_Now 0) :: skipn 14 tr
   /\ built_certificate (nth 13 tr (Ev time_Now 0)) = Some t)
  /\ CommonName (Subject t) = "SSH key"
  /\ (exists l0 serial now1 now2,
         firstn 13 tr = l0 ++ [Ev (rand_Int (2 ^ 128)) (Ok serial);
                               Ev time_Now now1; Ev time_Now now2]
         /\ SerialNumber t = Some serial
         /\ NotAfter t = AddDate now1 64 0 0
         /\ NotBefore t = now2
         /\ (now1 = now2 -> NotAfter t = AddDate (NotBefore t) 64 0 0)
         /\ (Forall random_in_bounds (firstn 13 tr) -> 0 <= serial < 2 ^ 128))
  /\ KeyUsage t = Z.lor KeyUsageKeyAgreement KeyUsageDigitalSignature
  /\ (forall i, Z.testbit (KeyUsage t) i = true <-> i = 4 \/ i = 0).
Proof.
  intros env tr now t.
  assert (E : tr = firstn 13 tr ++ nth 13 tr (Ev time_Now 0) :: skipn 14 tr)
    by (vm_compute; reflexivity).
  assert (Ht : built_certificate (nth 13 tr (Ev time_Now 0)) = Some t)
    by (vm_compute; reflexivity).
  split; [split; assumption |].
  exact (C5_certificate_template "v1" env (aCmd 123456 false false) _ _ _ t E Ht).
Defined.

(** 64 years after 10 o'clock on November 3, 2026 in [eastern] (15:00 UTC,
    standard time) is 10 o'clock on November 3, 2090 in [eastern] (14:00
    UTC, daylight saving time); in UTC it is 15:00 UTC on that day.  On
    February 29 the day is carried into March of a year that is not a leap
    year. *)
Example AddDate_in_zone :
  AddDate {| unixNano := 1793718000000000000; location := eastern |} 64 0 0
  = {| unixNano := 3813400800000000000; location := eastern |}
  /\ AddDate (UTC 1793718000000000000) 64 0 0 = UTC 3813404400000000000
  /\ AddDate (UTC (days_from_civil 2036 2 29 * 86400 * 1000000000)) 64 0 0
     = UTC (days_from_civil 2100 3 1 * 86400 * 1000000000).
Proof. repeat split; vm_compute; reflexivity. Qed.


(** ** Output *)

Lemma printed_after_stored_recent : recent printed_after_stored.
Proof.
  intros l l' ev H format args Hev.
  destruct (H format args Hev)
    as [l0 [k [mk [slot [tp [pub [cert [sshKey [mid [Hmid Hcase]]]]]]]]]].
  exists (l ++ l0), k, mk, slot, tp, pub, cert, sshKey, mid.
  split; [exact Hmid |].
  destruct Hcase as [[Hf [Ha ->]] | [Hf [Ha ->]]]; [left | right];
    rewrite <- app_assoc; auto.
Qed.

Lemma printed_after_stored_elsewhere h ev :
  origin ev <> ByConfigureSlot -> printed_after_stored h ev.
Proof.
  destruct ev as [X c x]. intros Ho format args H.
  destruct c; try discriminate H. now elim Ho.
Qed.

Lemma key_line_after_stored k mk slot touchPolicy pub cert sshKey mid x :
  Forall (fun e => is_device e = false) mid ->
  printed_after_stored
    (stored_events k mk slot touchPolicy pub cert sshKey mid)
    (Ev (fmt_Printf key_line_format [map_index touchStringMap touchPolicy]) x).
Proof.
  intros Hmid format args H. injection H as <- <-.
  exists [], k, mk, slot, touchPolicy, pub, cert, sshKey, mid. auto.
Qed.

Lemma key_after_stored k mk slot touchPolicy pub cert sshKey mid x :
  Forall (fun e => is_device e = false) mid ->
  printed_after_stored
    (stored_events k mk slot touchPolicy pub cert sshKey mid
       ++ [Ev (fmt_Printf key_line_format [map_index touchStringMap touchPolicy]) tt])
    (Ev (fmt_Printf (ssh_MarshalAuthorizedKey sshKey) []) x).
Proof.
  intros Hmid format args H. injection H as <- <-.
  exists [], k, mk, slot, touchPolicy, pub, cert, sshKey, mid. auto.
Qed.

Lemma configureSlot_printed_after_stored version cmd k mk slot touchPolicy :
  always printed_after_stored [] (configureSlot version cmd k mk slot touchPolicy).
Proof.
  unfold configureSlot.
  exec_always ltac:(try solve [intros ? ? H; cbn [printed ev_call] in H;
                               discriminate H]);
    repeat match goal with u : unit |- _ => destruct u end.
  - apply (key_line_after_stored k mk slot touchPolicy _ _ _ [_; _; _; _; _; _]).
    repeat constructor.
  - apply (key_after_stored k mk slot touchPolicy _ _ _ [_; _; _; _; _; _]).
    repeat constructor.
Qed.

(** C10: in every run, each line the slot configurator prints (the key
    line with the touch-policy label, then the SSH authorized-key
    encoding) comes only after the certificate of that slot was stored on
    the device with success: the events just before it are the generation
    of the key for the slot with that touch policy, host-side work, the
    successful [SetCertificate] for the same slot and the conversion of the
    same public key. *)
Theorem C10_output_only_after_certificate_stored :
  forall version env cmd l1 ev l2 format args,
    fst (run env (Run version cmd) []) = l1 ++ ev :: l2 ->
    printed ev = Some (format, args) ->
    exists l0 k mk slot touchPolicy pub cert sshKey mid,
      Forall (fun e => is_device e = false) mid
      /\ ((format = key_line_format
           /\ args = [map_index touchStringMap touchPolicy]
           /\ l1 = l0 ++ stored_events k mk slot touchPolicy pub cert sshKey mid)
          \/ (format = ssh_MarshalAuthorizedKey sshKey
              /\ args = []
              /\ l1 = l0 ++ stored_events k mk slot touchPolicy pub cert sshKey mid
                         ++ [Ev (fmt_Printf key_line_format
                                   [map_index touchStringMap touchPolicy]) tt])).
Proof.
  intros version env cmd l1 ev l2 format args E Hev.
  assert (H : always printed_after_stored [] (Run version cmd)).
  { apply always_Run.
    - apply printed_after_stored_recent.
    - intros h e Ho. apply printed_after_stored_elsewhere. congruence.
    - intros h e Ho. apply printed_after_stored_elsewhere. congruence.
    - intros. apply configureSlot_printed_after_stored. }
  apply (always_run _ env) in H.
  exact (H l1 ev l2 E format args Hev).
Qed.

Lemma C10_witness :
  let tr := fst (run (working [] [0; 0] (Err ErrNotFound))
                   (Run "v1" (aCmd 123456 false false)) []) in
  (tr = firstn 17 tr ++ nth 17 tr (Ev time_Now 0) :: skipn 18 tr
   /\ printed (nth 17 tr (Ev time_Now 0)) = Some (key_line_format, ["cached"]))
  /\ exists l0 k mk slot touchPolicy pub cert sshKey mid,
      Forall (fun e => is_device e = false) mid
      /\ ((key_line_format = key_line_format
           /\ ["cached"] = [map_index touchStringMap touchPolicy]
           /\ firstn 17 tr
              = l0 ++ stored_events k mk slot touchPolicy pub cert sshKey mid)
          \/ (key_line_format = ssh_MarshalAuthorizedKey sshKey
              /\ ["cached"] = []
              /\ firstn 17 tr
                 = l0 ++ stored_events k mk slot touchPolicy pub cert sshKey mid
                      ++ [Ev (fmt_Printf key_line_format
                                [map_index touchStringMap touchPolicy]) tt])).
Proof.
  intros tr.
  assert (E : tr = firstn 17 tr ++ nth 17 tr (Ev time_Now 0) :: skipn 18 tr)
    by (vm_compute; reflexivity).
  assert (Hp : printed (nth 17 tr (Ev time_Now 0)) = Some (key_line_format, ["cached"]))
    by (vm_compute; reflexivity).
  split; [split; assumption |].
  exact (C10_output_only_after_certificate_stored "v1"
           (working [] [0; 0] (Err ErrNotFound)) (aCmd 123456 false false)
           _ _ _ _ _ E Hp).
Defined.

(** ** The runs of the command, path by path *)

Ltac scrutinee p :=
  lazymatch p with
  | bind ?q _ => scrutinee q
  | defer ?q _ => scrutinee q
  | returned ?q => scrutinee q
  | check ?r _ => constr:(r)
  | check_nil ?r _ => constr:(r)
  | match ?r with _ => _ end => constr:(r)
  end.

Ltac exec_post :=
  cbn [post bind call check check_nil returned defer app];
  lazymatch goal with
  | |- forall _, _ => intro; exec_post
  | |- post ?p _ _ =>
      first [ let r := scrutinee p in destruct r eqn:?; exec_post | idtac ]
  | |- _ => idtac
  end.

Lemma post_True {A} (p : Prog A) (acc : Trace) : post p acc (fun _ _ => True).
Proof.
  revert acc; induction p as [a | e | X c k IH]; intros acc; simpl; auto.
Qed.

Lemma post_and {A} (p : Prog A) (acc : Trace) (Q1 Q2 : Trace -> result A -> Prop) :
  post p acc Q1 -> post p acc Q2 -> post p acc (fun tr r => Q1 tr r /\ Q2 tr r).
Proof.
  revert acc; induction p as [a | e | X c k IH]; intros acc H1 H2; simpl in *; auto.
Qed.

Lemma configureSlots_errors version cmd k mk keySpec acc :
  post (configureSlots version cmd k mk keySpec) acc
    (fun _ r => forall e, r = Err e -> not_of_validator e).
Proof.
  revert acc; induction keySpec as [| ss rest IH]; intros acc.
  - simpl. discriminate.
  - unfold configureSlots in *. cbn [for_range].
    apply post_bind. apply post_bind. apply post_returned.
    eapply post_mono; [| apply post_True].
    intros tr [[] | e] _; cbn [post].
    + apply IH.
    + intros e' H. injection H as <-. split; reflexivity.
Qed.

Lemma setup_errors version cmd k :
  post (setup version cmd k) []
    (fun _ r => forall e, r = Err e -> not_of_validator e).
Proof.
  unfold setup. exec_post;
    try match goal with
        | H : Err _ = Err _ |- _ => injection H as <-; split; reflexivity
        end;
    apply configureSlots_errors.
Qed.

Lemma entries_app (l1 l2 : Trace) : entries (l1 ++ l2) = entries l1 ++ entries l2.
Proof. apply flat_map_app. Qed.

Lemma entries_not_ByRun (tr : Trace) :
  Forall (fun ev => origin ev <> ByRun) tr -> entries tr = [].
Proof.
  induction 1 as [| ev tr Hev _ IH]; [reflexivity |].
  cbn [entries flat_map]. fold (entries tr). rewrite IH, app_nil_r.
  destruct ev as [X c x]. destruct c; try reflexivity; now elim Hev.
Qed.

Lemma configureSlot_not_ByRun version cmd k mk slot touchPolicy :
  always (fun _ ev => origin ev <> ByRun) []
    (configureSlot version cmd k mk slot touchPolicy).
Proof.
  unfold configureSlot. exec_always ltac:(discriminate).
Qed.

Lemma setup_entries version cmd k :
  post (setup version cmd k) [] (fun new _ => entries new = []).
Proof.
  apply post_mono
    with (Q := fun tr _ => throughout (fun _ ev => origin ev <> ByRun) tr);
    [| apply always_post; [| apply throughout_nil]].
  - intros tr _ H. apply entries_not_ByRun, throughout_Forall, H.
  - apply always_setup.
    + intros l0 l ev H. exact H.
    + intros h ev H. congruence.
    + intros. apply configureSlot_not_ByRun.
Qed.

Lemma setup_after_validation version cmd k :
  post (setup version cmd k) [] after_validation.
Proof.
  eapply post_mono; [| apply post_and; [apply setup_entries | apply setup_errors]].
  intros tr r [H1 H2]. split; auto.
Qed.

Lemma post_anywhere {A} (p : Prog A) (acc : Trace) (Q : Trace -> result A -> Prop) :
  post p [] Q -> post p acc (fun tr r => exists new, tr = acc ++ new /\ Q new r).
Proof.
  intros H. rewrite <- (app_nil_r acc) at 1. now apply post_frame.
Qed.

Lemma in_range_of_test (pin : Z) :
  (pin <? 100000) || (99999999 <? pin) = false <-> 100000 <= pin <= 99999999.
Proof.
  rewrite orb_false_iff, !Z.ltb_ge. lia.
Qed.

Lemma after_validation_sync new r log s :
  after_validation new r -> after_validation (new ++ [Ev (log_Sync log) s]) r.
Proof.
  intros [H1 H2]. split; [| exact H2].
  rewrite entries_app, H1. reflexivity.
Qed.

Lemma not_true_iff_false_inv (pin : Z) :
  (pin <? 100000) || (99999999 <? pin) = true -> ~ 100000 <= pin <= 99999999.
Proof.
  intros H Hr. apply in_range_of_test in Hr. congruence.
Qed.

Ltac validator_facts :=
  repeat match goal with
         | H : (PIN _ =? 0) = true |- _ => apply Z.eqb_eq in H
         | H : (PIN _ =? 0) = false |- _ => apply Z.eqb_neq in H
         | H : negb (bytes_Equal _ _) = true |- _ =>
             apply negb_true_iff, String.eqb_neq in H
         | H : negb (bytes_Equal _ _) = false |- _ =>
             apply negb_false_iff, String.eqb_eq in H; subst
         | H : _ || _ = false |- _ => apply in_range_of_test in H
         | H : _ || _ = true |- _ =>
             apply not_true_iff_false_inv in H
         end.

Lemma after_validation_no_key e s log :
  after_validation [Ev (log_Sync log) s]
    (Err (wrapf "couldn't get security key: %w" [] e)).
Proof.
  split; [reflexivity |]. intros e' H. injection H as <-. split; reflexivity.
Qed.

Lemma Run_after_validation version cmd k log acc :
  post (defer (setup version cmd k) (Do (log_Sync log) (fun _ => Ret tt))) acc
    (fun tr r => exists rest, tr = acc ++ rest /\ after_validation rest r).
Proof.
  apply post_defer.
  eapply post_mono; [| apply post_anywhere, setup_after_validation].
  intros tr r [new [-> H]]. cbn [post]. intros s.
  exists (new ++ [Ev (log_Sync log) s]).
  split; [now rewrite app_assoc | now apply after_validation_sync].
Qed.

Lemma Run_outcomes version cmd : post (Run version cmd) [] (Run_outcome cmd).
Proof.
  unfold Run, interactivePIN. exec_post.
  all: repeat match goal with u : unit |- _ => destruct u end.
  all: cbn [PIN with_PIN Card] in *.
  all: validator_facts.
  all: try solve [econstructor; eauto using after_validation_no_key].
  all: (eapply post_mono; [| apply Run_after_validation]);
    intros tr r [rest [-> H]]; cbn [app]; econstructor; eauto.
Qed.

Lemma Run_outcome_run version env cmd :
  Run_outcome cmd (fst (run env (Run version cmd) []))
                  (snd (run env (Run version cmd) [])).
Proof.
  destruct (post_run env _ _ (Run_outcomes version cmd) []) as [new [E H]].
  rewrite E at 1. exact H.
Qed.

(** ** The secret validator *)

Ltac entries_of_outcome :=
  cbn [entries flat_map entry ev_call ev_resp app touches_device existsb
       is_device orb logger_started] in *;
  repeat match goal with
         | H : after_validation _ _ |- _ => destruct H as [? ?]
         | H : flat_map entry ?rest = [] |- _ => rewrite H in *
         | H : entries ?rest = [] |- _ => unfold entries in H
         end.

Lemma C1_outcomes cmd tr r :
  Run_outcome cmd tr r ->
  logger_started tr = true ->
  (touches_device tr = true <-> secret_confirmed cmd tr)
  /\ (touches_device tr = false ->
      exists e, r = Err e
                /\ (is_ValidationError e = true \/ is_read_failure e = true)).
Proof.
  intros H Hlog. unfold secret_confirmed.
  destruct H; entries_of_outcome; try discriminate Hlog;
    match goal with
    | H : PIN cmd = 0 |- _ => rewrite H; change (0 =? 0) with true; cbv iota
    | H : PIN cmd <> 0 |- _ => apply Z.eqb_neq in H; rewrite H
    end.
  - split; [split; [discriminate | tauto] | eauto].
  - split; [tauto | discriminate].
  - split; [split; [discriminate | intros [? [? [? ?]]]; discriminate] | eauto].
  - split; [split; [discriminate | intros [? [? [? ?]]]; discriminate] | eauto].
  - split; [split; [discriminate | intros [? [? [? ?]]]; discriminate] | eauto].
  - split; [split; [discriminate | intros [? [? [E ?]]]; congruence] | eauto].
  - split; [split; [discriminate | intros [raw' [pin' [E [Hp Hr]]]]] | eauto].
    injection E as E1 E2. subst raw'.
    assert (pin = pin') by congruence. subst. tauto.
  - split; [split; [eauto 6 | reflexivity] | discriminate].
Qed.

(** C1 (as amended): once the logger is set up, the command goes on to the
    security key if and only if the secret is within [100000, 99999999]
    and, when it is typed at the prompt, both reads succeed, the first
    entry parses as an unsigned integer and the second entry equals the
    first; otherwise it fails before any call to the device, with a
    validation error or, when the terminal cannot be read, with the error
    of the read. *)
Theorem C1_accepted_iff_in_range_and_confirmed :
  forall version env cmd,
    let tr := fst (run env (Run version cmd) []) in
    let r := snd (run env (Run version cmd) []) in
    logger_started tr = true ->
    (touches_device tr = true <-> secret_confirmed cmd tr)
    /\ (touches_device tr = false ->
        exists e, r = Err e
                  /\ (is_ValidationError e = true \/ is_read_failure e = true)).
Proof.
  intros version env cmd tr r Hlog.
  apply (C1_outcomes cmd tr r); [apply Run_outcome_run | exact Hlog].
Qed.

Lemma C1_witness :
  let env := working [] [0; 0] (Err ErrNotFound) in
  let cmd := aCmd 123456 false false in
  let tr := fst (run env (Run "v1" cmd) []) in
  let r := snd (run env (Run "v1" cmd) []) in
  logger_started tr = true
  /\ (touches_device tr = true <-> secret_confirmed cmd tr)
  /\ (touches_device tr = false ->
      exists e, r = Err e
                /\ (is_ValidationError e = true \/ is_read_failure e = true)).
Proof.
  intros env cmd tr r.
  assert (Hlog : logger_started tr = true) by (vm_compute; reflexivity).
  split; [exact Hlog |].
  exact (C1_accepted_iff_in_range_and_confirmed "v1" env cmd Hlog).
Defined.

(** C1 as stated fails: the operator types 123456, then 123457.  The
    secret supplied parses and is within range, yet the command stops
    before any call to the device. *)
Lemma C1_counterexample :
  let env := working ["123456"; "123457"] [] (Err ErrNotFound) in
  let cmd := aCmd 0 true false in
  let tr := fst (run env (Run "v1" cmd) []) in
  logger_started tr = true
  /\ secret_in_range cmd tr
  /\ snd (run env (Run "v1" cmd) []) = Err (errorf "PIN/PUK entries not equal" [])
  /\ ~ (touches_device tr = true <-> secret_in_range cmd tr).
Proof.
  intros env cmd tr.
  assert (Hrange : secret_in_range cmd tr).
  { exists "123456", [Ok "123457"], 123456.
    split; [vm_compute; reflexivity |].
    split; [vm_compute; reflexivity | lia]. }
  split; [vm_compute; reflexivity |].
  split; [exact Hrange |].
  split; [vm_compute; reflexivity |].
  intros [_ H]. specialize (H Hrange). vm_compute in H. discriminate H.
Qed.

Lemma C7_outcomes cmd tr r :
  Run_outcome cmd tr r ->
  (PIN cmd = 0 -> touches_device tr = true ->
   exists rawPIN, entries tr = [Ok rawPIN; Ok rawPIN])
  /\ (forall rawPIN repeat,
         entries tr = [Ok rawPIN; Ok repeat] -> repeat <> rawPIN ->
         exists e, r = Err e /\ e = errorf "PIN/PUK entries not equal" []
                   /\ is_ValidationError e = true /\ touches_device tr = false)
  /\ (forall rawPIN rest,
         entries tr = Ok rawPIN :: rest -> (forall pin, ParseUint rawPIN <> Ok pin) ->
         exists e, r = Err e /\ is_ValidationError e = true
                   /\ rest = [] /\ touches_device tr = false)
  /\ (forall e, r = Err e -> is_ValidationError e = true ->
                touches_device tr = false).
Proof.
  intros H.
  destruct H; entries_of_outcome;
    (split; [| split; [| split]]);
    try (intros; first [discriminate | congruence | reflexivity | eauto; fail]).
  all: try (intros raw rest' E Hn; injection E as <- <-; try congruence; eauto; fail).
  all: try (intros e' He Hv;
            match goal with
            | H : forall e, _ = Err e -> _ |- _ => destruct (H e' He); congruence
            end).
Qed.

(** C7: a secret typed at the prompt is accepted only when two entries
    were read and are equal byte for byte; entries that differ, or a first
    entry that is no unsigned integer, end the command with a validation
    error; and whenever the command ends with a validation error, no call
    to the device was made. *)
Theorem C7_interactive_secret_confirmed_before_device :
  forall version env cmd,
    let tr := fst (run env (Run version cmd) []) in
    let r := snd (run env (Run version cmd) []) in
    (PIN cmd = 0 -> touches_device tr = true ->
     exists rawPIN, entries tr = [Ok rawPIN; Ok rawPIN])
    /\ (forall rawPIN repeat,
           entries tr = [Ok rawPIN; Ok repeat] -> repeat <> rawPIN ->
           exists e, r = Err e /\ e = errorf "PIN/PUK entries not equal" []
                     /\ is_ValidationError e = true /\ touches_device tr = false)
    /\ (forall rawPIN rest,
           entries tr = Ok rawPIN :: rest -> (forall pin, ParseUint rawPIN <> Ok pin) ->
           exists e, r = Err e /\ is_ValidationError e = true
                     /\ rest = [] /\ touches_device tr = false)
    /\ (forall e, r = Err e -> is_ValidationError e = true ->
                  touches_device tr = false).
Proof.
  intros version env cmd tr r. apply C7_outcomes, Run_outcome_run.
Qed.

Lemma C8_outcomes cmd tr r :
  Run_outcome cmd tr r ->
  PIN cmd = 0 ->
  (logger_started tr = true ->
   nth_error tr 1 = Some (Ev (fmt_Print "Enter a new PIN/PUK (6-8 digits): ") tt)
   /\ exists answer, nth_error tr 2 = Some (Ev terminal_ReadPassword answer))
  /\ (touches_device tr = true ->
      exists rawPIN pin,
        entries tr = [Ok rawPIN; Ok rawPIN]
        /\ ParseUint rawPIN = Ok pin /\ 100000 <= pin <= 99999999).
Proof.
  intros H H0.
  destruct H; try contradiction; entries_of_outcome;
    (split; [intros Hlog; try discriminate Hlog; cbn [nth_error]; eauto
            | intros Ht; try discriminate Ht; eauto 6]).
Qed.

(** C8: the flag [--pin=0] builds the same command as no [--pin] flag, so
    both run alike; with the PIN field at 0 the command (once the logger is
    set up) prompts and reads the terminal, and it reaches the device only
    with a secret typed twice at the prompt, which is then within range:
    the secret 0 cannot be supplied, and 0 is out of range anyway. *)
Theorem C8_pin_zero_is_no_pin :
  forall version env card reset all,
    let zero := from_flags (mkFlags card reset (Some 0) all) in
    let omitted := from_flags (mkFlags card reset None all) in
    zero = omitted
    /\ run env (Run version zero) [] = run env (Run version omitted) []
    /\ (forall cmd, PIN cmd = 0 ->
          let tr := fst (run env (Run version cmd) []) in
          (logger_started tr = true ->
           nth_error tr 1
             = Some (Ev (fmt_Print "Enter a new PIN/PUK (6-8 digits): ") tt)
           /\ exists answer, nth_error tr 2 = Some (Ev terminal_ReadPassword answer))
          /\ (touches_device tr = true ->
              exists rawPIN pin,
                entries tr = [Ok rawPIN; Ok rawPIN]
                /\ ParseUint rawPIN = Ok pin /\ 100000 <= pin <= 99999999))
    /\ ~ 100000 <= 0 <= 99999999.
Proof.
  intros version env card reset all zero omitted.
  split; [reflexivity |].
  split; [reflexivity |].
  split; [| lia].
  intros cmd H0 tr.
  apply (C8_outcomes cmd tr (snd (run env (Run version cmd) []))); auto.
  apply Run_outcome_run.
Qed.

(** The scenarios of the validator: five digits; a mismatch; a letter. *)
Example scenario_E :
  run (working [] [] (Err ErrNotFound)) (Run "v1" (aCmd 12345 true false)) []
  = ([Ev zap_NewDevelopment (Ok (logger 0)); Ev (log_Sync (logger 0)) None],
     Err (errorf "invalid PIN, must be 6-8 digits" [])).
Proof. reflexivity. Qed.

Example scenario_F :
  let out := run (working ["123456"; "123457"] [] (Err ErrNotFound))
                 (Run "v1" (aCmd 0 true false)) [] in
  snd out = Err (errorf "PIN/PUK entries not equal" [])
  /\ touches_device (fst out) = false
  /\ entries (fst out) = [Ok "123456"; Ok "123457"].
Proof. repeat split; reflexivity. Qed.

Example scenario_not_numeric :
  let out := run (working ["12a456"; "12a456"] [] (Err ErrNotFound))
                 (Run "v1" (aCmd 0 true false)) [] in
  snd out = Err (wrapf "invalid characters: %w" [] ErrSyntax)
  /\ touches_device (fst out) = false
  /\ entries (fst out) = [Ok "12a456"].
Proof. repeat split; reflexivity. Qed.

Example ParseUint_examples :
  ParseUint "00123456" = Ok 123456
  /\ ParseUint "" = Err ErrSyntax
  /\ ParseUint "+123456" = Err ErrSyntax
  /\ ParseUint "18446744073709551615" = Ok 18446744073709551615
  /\ ParseUint "18446744073709551616" = Err ErrRange
  /\ FormatUint 87654321 = "87654321".
Proof. repeat split; reflexivity. Qed.

(** ** The device guard *)

Lemma post_extends {A} (p : Prog A) (acc : Trace) :
  post p acc (fun tr _ => exists rest, tr = acc ++ rest).
Proof.
  eapply post_mono; [| apply post_anywhere, post_True].
  intros tr r [new [-> _]]. eauto.
Qed.

Lemma setup_guarded version cmd k : post (setup version cmd k) [] (guarded cmd k).
Proof.
  unfold setup, guarded. cbn [post bind call app]. intros [cert | e].
  - destruct (ResetSecurityKey cmd); cbn [negb bind post call check_nil app].
    + intros [e |]; cbn [negb bind post call check_nil app].
      * eexists _, _. split; [reflexivity |]. cbv iota.
        eexists _, _. split; [reflexivity |]. cbv iota. auto.
      * intros x. eapply post_mono; [| apply post_extends].
        intros tr r [rest ->]. cbn [app].
        eexists _, _. split; [reflexivity |]. cbv iota.
        eexists _, _. split; [reflexivity |]. cbv iota. red. eauto.
    + eexists _, _. split; [reflexivity |]. cbv iota. eauto 6.
  - destruct (errors_Is_ErrNotFound e) eqn:Hnf; cbn [negb bind post call app].
    + intros x. eapply post_mono; [| apply post_extends].
      intros tr r [rest ->]. cbn [app].
      eexists _, _. split; [reflexivity |]. cbv iota. rewrite Hnf. red. eauto.
    + eexists _, _. split; [reflexivity |]. cbv iota. rewrite Hnf. eauto.
Qed.

(** C2: [setup] first queries the certificate of the authentication slot.
    A certificate there and no overwrite flag: it fails with the
    already-provisioned error and the query is the only call, so nothing on
    the device is changed.  A certificate and the overwrite flag: the next
    call is the factory reset, and when the reset fails the command stops
    there with that error wrapped.  A query that reports "not found": the
    command goes on to the secret rotation.  Any other failure of the query
    stops the command with that error wrapped. *)
Theorem C2_device_guard :
  forall version env cmd k tr0,
    let out := run env (setup version cmd k) tr0 in
    exists query rest,
      fst out = tr0 ++ Ev (yk_Certificate k SlotAuthentication) query :: rest
      /\ match query with
         | Ok _ =>
             if ResetSecurityKey cmd
             then exists answer rest',
                    rest = Ev (yk_Reset k) answer :: rest'
                    /\ match answer with
                       | Some e =>
                           rest' = []
                           /\ snd out
                              = Err (wrapf "couldn't reset security key: %w" [] e)
                       | None => rotation_begins rest'
                       end
             else rest = []
                  /\ filter is_mutation
                       (Ev (yk_Certificate k SlotAuthentication) query :: rest) = []
                  /\ exists e, snd out = Err e /\ is_AlreadyProvisionedError e = true
         | Err e =>
             if errors_Is_ErrNotFound e
             then rotation_begins rest
             else rest = []
                  /\ snd out = Err (wrapf "couldn't get certificate: %w" [] e)
         end.
Proof.
  intros version env cmd k tr0 out.
  destruct (post_run env _ _ (setup_guarded version cmd k) tr0)
    as [new [E [query [rest [-> H]]]]].
  exists query, rest. subst out. rewrite E. split; [reflexivity | exact H].
Qed.

Example scenario_C :
  run (working [] [] (Ok (demo_template 0 0))) (setup "v1" (aCmd 123456 true false) (yubikey 1)) []
  = ([Ev (yk_Certificate (yubikey 1) SlotAuthentication) (Ok (demo_template 0 0))],
     Err (errorf "security key already set up and --reset-security-key not specified" [])).
Proof. reflexivity. Qed.

(** ** The secret rotation *)

Lemma array24_length (bs : list Byte.byte) : List.length (array24 bs) = 24%nat.
Proof.
  unfold array24. rewrite length_firstn, length_app, repeat_length. lia.
Qed.

Lemma drawn_length bytes : List.length (drawn bytes) = 24%nat.
Proof. destruct bytes; apply array24_length. Qed.

Lemma configureSlot_origin version cmd k mk slot touchPolicy :
  always (fun _ ev => origin ev = ByConfigureSlot) []
    (configureSlot version cmd k mk slot touchPolicy).
Proof.
  unfold configureSlot. exec_always ltac:(reflexivity).
Qed.

Lemma configureSlots_origin version cmd k mk keySpec :
  post (configureSlots version cmd k mk keySpec) []
    (fun new _ => Forall (fun ev => origin ev = ByConfigureSlot) new).
Proof.
  apply post_mono
    with (Q := fun tr _ => throughout (fun _ ev => origin ev = ByConfigureSlot) tr);
    [| apply always_post; [| apply throughout_nil]].
  - intros tr _ H. apply throughout_Forall, H.
  - apply always_configureSlots.
    + intros l0 l ev H. exact H.
    + intros. apply configureSlot_origin.
Qed.

Ltac answer_bytes :=
  first [ match goal with
          | |- context [@Ev _ (rand_Read 24) ?b] => exists b
          end
        | exists (Err ErrNotFound) ].

Ltac answer_to is_call :=
  first [ match goal with
          | |- context [@Ev _ ?c ?a] => is_call c; exists a
          end
        | exists None ].

Lemma configureSlots_begins version cmd k mk :
  post (configureSlots version cmd k mk (keySpec cmd)) []
    (fun new _ =>
       Forall (fun ev => origin ev = ByConfigureSlot) new
       /\ exists opts a new',
            new = Ev (yk_GenerateKey k mk SlotAuthentication opts) a :: new').
Proof.
  apply post_and; [apply configureSlots_origin |].
  unfold keySpec, allKeySpec, configureSlots.
  destruct (AllTouchPolicies cmd);
    cbn [for_range slot touchPolicy]; unfold configureSlot;
    cbn [post bind call returned app]; intros x;
    (eapply post_mono; [| apply post_extends]);
    intros tr r [rest ->]; cbn [app]; do 3 eexists; reflexivity.
Qed.

Ltac split_guard :=
  lazymatch goal with
  | |- exists guard rest, ?e1 :: @Ev _ (yk_Reset ?k) ?a :: ?l = _ /\ _ =>
      exists [e1; Ev (yk_Reset k) a], l
  | |- exists guard rest, ?e1 :: ?l = _ /\ _ =>
      exists [e1], l
  end;
  split; [reflexivity |].

Ltac guard_facts :=
  repeat match goal with
         | H : negb _ = true |- _ => apply negb_true_iff in H
         | H : negb _ = false |- _ => apply negb_false_iff in H
         end.

Ltac guard_passed :=
  first [ left; eexists; split; [reflexivity | assumption]
        | right; eexists; split; [assumption | reflexivity] ].

Ltac rotation_stops n :=
  right; split; [guard_passed |];
  exists n; answer_bytes;
  answer_to ltac:(fun c => lazymatch c with yk_SetManagementKey _ _ _ => idtac end);
  answer_to ltac:(fun c => lazymatch c with yk_SetMetadata _ _ _ => idtac end);
  answer_to ltac:(fun c => lazymatch c with yk_SetPIN _ _ _ => idtac end);
  answer_to ltac:(fun c => lazymatch c with yk_SetPUK _ _ _ => idtac end);
  exists [];
  cbn [firstn rotation_steps app drawn Nat.sub];
  split; [reflexivity |];
  split; [lia |];
  split; [repeat constructor |];
  split; [constructor |];
  left; do 3 eexists;
  cbn [nth_error rotation_errors];
  repeat (split; [reflexivity |]); reflexivity.

Lemma setup_guard_then_rotation version cmd k :
  post (setup version cmd k) [] (guard_then_rotation cmd k).
Proof.
  unfold setup, guard_then_rotation, rotation_made. exec_post.
  all: guard_facts.
  all: try (split_guard;
            first [ solve [left; split; [| split; [reflexivity | eauto]];
                           first [ left; eexists; split; [reflexivity | assumption]
                                 | right; left; eexists; split; [assumption | reflexivity]
                                 | right; right; do 2 eexists;
                                   split; [assumption | reflexivity] ]]
                  | solve [rotation_stops 1%nat] | solve [rotation_stops 2%nat]
                  | solve [rotation_stops 3%nat] | solve [rotation_stops 4%nat]
                  | solve [rotation_stops 5%nat] ]).
  all: (eapply post_mono; [| apply post_anywhere, configureSlots_begins]);
    intros tr r [new [-> [Horigin [opts [gen [new' ->]]]]]]; cbn [app];
    split_guard; right; (split; [guard_passed |]);
    exists 5%nat; answer_bytes; exists None, None, None, None;
    eexists (_ :: _);
    cbn [firstn rotation_steps app drawn Nat.sub];
    (split; [reflexivity |]);
    (split; [lia |]);
    (split; [repeat constructor |]);
    (split; [exact Horigin |]);
    right; split; [reflexivity |]; split; [repeat constructor | eauto].
Qed.

(** C3: after the guard, and only when it lets [setup] go on, the secret
    rotation is made, in this order and each step once: reading 24 bytes
    from [crypto/rand] into the management key, installing that key with
    the default management key, storing it in the metadata of the device,
    setting the PIN from the default PIN and setting the PUK from the
    default PUK, both to the decimal form of the operator's secret.  The
    first step is always made; each further step is made exactly when the
    one before succeeded.  When a step fails, [setup] makes no further call
    and returns the error of that step, wrapped in the message of the step;
    when all five succeed, the calls that follow are those of the slots,
    none of them a step of the rotation, and the first one generates a key
    with the new management key. *)
Theorem C3_secret_rotation_sequence :
  forall version env cmd k tr0,
    let out := run env (setup version cmd k) tr0 in
    exists guard rest,
      fst out = tr0 ++ guard ++ rest
      /\ ((guard_stops cmd k guard /\ rest = [] /\ exists e, snd out = Err e)
          \/ (guard_passes cmd k guard
              /\ exists n bytes a_mk a_md a_pin a_puk slots,
                   let steps :=
                     rotation_steps k (FormatUint (PIN cmd)) bytes a_mk a_md a_pin a_puk in
                   rest = firstn n steps ++ slots
                   /\ (1 <= n <= 5)%nat
                   /\ List.length (drawn bytes) = 24%nat
                   /\ Forall (fun ev => succeeded ev = true) (firstn (n - 1) steps)
                   /\ Forall (fun ev => is_rotation ev = false) slots
                   /\ ((exists ev c format,
                           nth_error steps (n - 1) = Some ev
                           /\ failure_of ev = Some c
                           /\ nth_error rotation_errors (n - 1) = Some format
                           /\ slots = []
                           /\ snd out = Err (wrapf format [] c))
                       \/ (n = 5%nat
                           /\ Forall (fun ev => succeeded ev = true) steps
                           /\ exists opts a slots',
                                slots = Ev (yk_GenerateKey k (drawn bytes)
                                              SlotAuthentication opts) a
                                        :: slots')))).
Proof.
  intros version env cmd k tr0 out.
  destruct (post_run env _ _ (setup_guard_then_rotation version cmd k) tr0)
    as [new [E [guard [rest [-> H]]]]].
  exists guard, rest. subst out. rewrite E. cbn [fst snd].
  split; [reflexivity |].
  destruct H as [H | [Hpass H]]; [left; exact H | right].
  split; [exact Hpass |].
  destruct H as [n [bytes [a_mk [a_md [a_pin [a_puk [slots H]]]]]]].
  cbv zeta in H. destruct H as [-> [Hn [Hok [Horigin Hend]]]].
  exists n, bytes, a_mk, a_md, a_pin, a_puk, slots. cbv zeta.
  split; [reflexivity |].
  split; [exact Hn |].
  split; [apply drawn_length |].
  split; [exact Hok |].
  split; [| exact Hend].
  eapply Forall_impl; [| exact Horigin].
  intros [X c x] Ho. destruct c; try reflexivity; discriminate Ho.
Qed.

(** ** The slot loop *)

Ltac slot_leaf :=
  cbn [slot touchPolicy];
  split; [reflexivity |];
  split; [repeat constructor |];
  first
    [ (* the slot is configured *)
      split; [reflexivity |];
      split; [repeat constructor |];
      eexists; reflexivity
    | (* a call failed *)
      split; [reflexivity |];
      split; [first [left; reflexivity | right; reflexivity] |];
      match goal with
      | |- stops_at_failure ?new =>
          exists (removelast new), (last new (Ev time_Now 0));
          cbn [removelast last app];
          split; [reflexivity |];
          split; [reflexivity | repeat constructor]
      end ].

Lemma configureSlot_configured version cmd k mk ss :
  post (configureSlot version cmd k mk (slot ss) (touchPolicy ss)) []
    (slot_configured ss).
Proof.
  destruct ss as [s tp]. unfold configureSlot, slot_configured. exec_post.
  all: repeat match goal with u : unit |- _ => destruct u end.
  all: slot_leaf.
Qed.

Lemma generated_app l1 l2 : generated (l1 ++ l2) = generated l1 ++ generated l2.
Proof. apply flat_map_app. Qed.

Lemma stored_app l1 l2 : stored (l1 ++ l2) = stored l1 ++ stored l2.
Proof. apply flat_map_app. Qed.

Lemma output_app l1 l2 : output (l1 ++ l2) = output l1 ++ output l2.
Proof. apply flat_map_app. Qed.

Lemma stops_at_failure_app l1 l2 :
  Forall (fun ev => succeeded ev = true) l1 ->
  stops_at_failure l2 -> stops_at_failure (l1 ++ l2).
Proof.
  intros H1 [l [ev [-> [Hev Hl]]]].
  exists (l1 ++ l), ev. rewrite app_assoc.
  split; [reflexivity |]. split; [exact Hev |].
  apply Forall_app; auto.
Qed.

Lemma configureSlots_configured version cmd k mk ks :
  post (configureSlots version cmd k mk ks) [] (slots_configured ks).
Proof.
  induction ks as [| ss rest IH].
  - cbn. split; [constructor |].
    split; [reflexivity |]. split; [reflexivity |]. split; [constructor |].
    exists []. split; reflexivity.
  - unfold configureSlots. cbn [for_range].
    change (for_range rest _) with (configureSlots version cmd k mk rest).
    apply post_bind, post_bind, post_returned.
    eapply post_mono; [| apply configureSlot_configured].
    intros new r [Hgen [Horigin Hr]].
    destruct r as [[] | cause]; cbn [post].
    + destruct Hr as [Hstored [Hok [key Hout]]].
      eapply post_mono; [| apply post_anywhere, IH].
      intros tr r [new' [-> [Horigin' Hr']]].
      split; [apply Forall_app; auto |].
      rewrite generated_app, stored_app, output_app, Hgen, Hstored, Hout.
      destruct r as [[] | e].
      * destruct Hr' as [Hgen' [Hstored' [Hok' [keys [Hlen Hout']]]]].
        rewrite Hgen', Hstored', Hout'.
        split; [reflexivity |]. split; [reflexivity |].
        split; [apply Forall_app; auto |].
        exists (key :: keys). split; [cbn; congruence | reflexivity].
      * destruct Hr' as [n [ss' [cause [keys [m [Hnth [-> [Hgen' [Hm [Hstored' [Hlen [Hout' Hstop]]]]]]]]]]]].
        exists (S n), ss', cause, (key :: keys), (S m).
        rewrite Hgen', Hstored', Hout'.
        split; [exact Hnth |]. split; [reflexivity |].
        split; [reflexivity |]. split; [lia |].
        split; [reflexivity |]. split; [cbn; congruence |].
        split; [reflexivity |].
        apply stops_at_failure_app; auto.
    + destruct Hr as [Hout [Hstored Hstop]].
      split; [exact Horigin |].
      exists 0%nat, ss, cause, [].
      exists (List.length (stored new)).
      rewrite Hgen, Hout.
      split; [reflexivity |]. split; [reflexivity |].
      split; [reflexivity |].
      split; [destruct Hstored as [-> | ->]; cbn; auto |].
      split; [destruct Hstored as [-> | ->]; reflexivity |].
      split; [reflexivity |]. split; [reflexivity | exact Hstop].
Qed.

(** C6: when the loop over the active table stops with an error, it is the
    error of one slot, number [i] of the table.  Keys were generated for
    the slots up to [i] and for no later one; the certificates of the slots
    before [i] are stored and their two lines are printed, nothing is
    printed for slot [i]; the call that failed is the last call of the
    trace and every call before it succeeded; and the loop made no call
    but those of [configureSlot], so nothing is reset or undone. *)
Theorem C6_slot_failure_stops_without_rollback :
  forall version env cmd k mk tr0,
    let out := run env (configureSlots version cmd k mk (keySpec cmd)) tr0 in
    forall e, snd out = Err e ->
    exists new i ss cause keys m,
      fst out = tr0 ++ new
      /\ nth_error (keySpec cmd) i = Some ss
      /\ e = wrapf "couldn't configure slot %v: %w" [opSlot (slot ss)] cause
      /\ generated new = firstn (S i) (keySpec cmd)
      /\ (m = i \/ m = S i)
      /\ stored new = map slot (firstn m (keySpec cmd))
      /\ List.length keys = i
      /\ output new = key_lines (firstn i (keySpec cmd)) keys
      /\ stops_at_failure new
      /\ Forall (fun ev => origin ev = ByConfigureSlot) new.
Proof.
  intros version env cmd k mk tr0 out e He.
  destruct (post_run env _ _
              (configureSlots_configured version cmd k mk (keySpec cmd)) tr0)
    as [new [E [Horigin H]]].
  subst out. rewrite He in H.
  destruct H as [n [ss [cause [keys [m [Hnth [-> [Hgen [Hm [Hst [Hlen [Hout Hstop]]]]]]]]]]]].
  exists new, n, ss, cause, keys, m.
  rewrite E. cbn [fst]. repeat (split; [assumption || reflexivity |]).
  exact Horigin.
Qed.

Lemma C6_witness :
  let env := failing_at 18 (errorString "device error")
               (working [] [0; 0; 0; 0; 0; 0] (Err ErrNotFound)) in
  let cmd := aCmd 123456 true false in
  let out := run env (configureSlots "v1" cmd (yubikey 1) (repeat Byte.x2a 24)
                        (keySpec cmd)) [] in
  let e := wrapf "couldn't configure slot %v: %w" [opSlot SlotSignature]
             (wrapf "couldn't set certificate: %w" [] (errorString "device error")) in
  snd out = Err e
  /\ exists new i ss cause keys m,
      fst out = [] ++ new
      /\ nth_error (keySpec cmd) i = Some ss
      /\ e = wrapf "couldn't configure slot %v: %w" [opSlot (slot ss)] cause
      /\ generated new = firstn (S i) (keySpec cmd)
      /\ (m = i \/ m = S i)
      /\ stored new = map slot (firstn m (keySpec cmd))
      /\ List.length keys = i
      /\ output new = key_lines (firstn i (keySpec cmd)) keys
      /\ stops_at_failure new
      /\ Forall (fun ev => origin ev = ByConfigureSlot) new.
Proof.
  intros env cmd out e.
  assert (He : snd out = Err e) by (vm_compute; reflexivity).
  split; [exact He |].
  exact (C6_slot_failure_stops_without_rollback "v1" env cmd (yubikey 1)
           (repeat Byte.x2a 24) [] e He).
Defined.

Example slot_failure_run :
  let env := failing_at 18 (errorString "device error")
               (working [] [0; 0; 0; 0; 0; 0] (Err ErrNotFound)) in
  let cmd := aCmd 123456 true false in
  let out := run env (configureSlots "v1" cmd (yubikey 1) (repeat Byte.x2a 24)
                        (keySpec cmd)) [] in
  generated (fst out)
  = [mkSlotSpec SlotAuthentication TouchPolicyCached;
     mkSlotSpec SlotSignature TouchPolicyAlways]
  /\ stored (fst out) = [SlotAuthentication]
  /\ output (fst out)
     = [(key_line_format, ["cached"]);
        (("ecdsa-sha2-nistp256 0" ++ LF)%string, [])]
  /\ List.length (fst out) = 19%nat.
Proof. repeat split; reflexivity. Qed.

(** ** The number of slots *)

Lemma quiet_BySetup (l : Trace) :
  Forall (fun ev => origin ev = BySetup) l ->
  generated l = [] /\ stored l = [] /\ output l = [].
Proof.
  induction 1 as [| ev l Hev _ [IHg [IHs IHo]]]; [repeat split |].
  unfold generated, stored, output in *. cbn [flat_map].
  rewrite IHg, IHs, IHo.
  destruct ev as [X c x]. destruct c; try discriminate Hev; repeat split.
Qed.

Lemma setup_slots_counted version cmd k :
  post (setup version cmd k) [] (slots_counted cmd).
Proof.
  unfold setup, slots_counted. exec_post.
  all: try solve [split; [exists 0%nat; reflexivity | discriminate]].
  all: (eapply post_mono; [| apply post_anywhere, configureSlots_configured]);
    intros tr r [new [-> [_ H]]];
    match goal with
    | |- context [generated (?acc ++ new)] =>
        destruct (quiet_BySetup acc) as [Hg [Hs Ho]]; [repeat constructor |]
    end;
    rewrite generated_app, stored_app, output_app, Hg, Hs, Ho; cbn [app];
    destruct r as [[] | err].
  all: try (destruct H as [Hgen [Hst [_ Hkeys]]];
            split; [exists (List.length (keySpec cmd)); now rewrite firstn_all | auto]).
  all: destruct H as [n [ss [cause [keys [m [_ [_ [Hgen _]]]]]]]];
    split; [exists (S n); exact Hgen | discriminate].
Qed.

Lemma slot_call_is_no_query (ev : Event) :
  origin ev = ByConfigureSlot -> is_not_found ev = false.
Proof.
  destruct ev as [X c x]. intros Ho. destruct c; try reflexivity; discriminate Ho.
Qed.

Ltac last_call_failed H :=
  exfalso;
  repeat match type of H with
         | Forall _ (_ :: _ :: _) => apply Forall_inv_tail in H
         end;
  apply Forall_inv in H; unfold tolerated in H;
  cbn [succeeded is_not_found ev_call ev_resp is_Ok is_nil orb] in H;
  congruence.

Lemma setup_completes version cmd k :
  post (setup version cmd k) []
    (fun new r =>
       Forall (fun ev => tolerated ev = true) new ->
       r = Ok tt
       \/ (ResetSecurityKey cmd = false
           /\ exists cert, new = [Ev (yk_Certificate k SlotAuthentication) (Ok cert)])).
Proof.
  unfold setup. exec_post.
  all: guard_facts.
  all: try solve [right; split; [assumption | eexists; reflexivity]].
  all: try solve [match goal with
                  | H : Forall _ _ |- _ => last_call_failed H
                  end].
  all: (eapply post_mono; [| apply post_anywhere, configureSlots_configured]);
    intros tr r [new [-> [Horigin H]]] Hall;
    destruct r as [[] | err]; [left; reflexivity | exfalso];
    destruct H as (n & ss & cause & keys & m & _ & _ & _ & _ & _ & _ & _
                   & l & ev & -> & Hfail & _);
    apply Forall_app in Hall; destruct Hall as [_ Hall];
    apply Forall_app in Hall; destruct Hall as [_ Hall];
    apply Forall_inv in Hall; unfold tolerated in Hall;
    apply Forall_app in Horigin; destruct Horigin as [_ Horigin];
    apply Forall_inv in Horigin;
    rewrite Hfail, (slot_call_is_no_query _ Horigin) in Hall; discriminate Hall.
Qed.

(** C4: the table the loop ranges over is the single entry
    authentication/cached in single-slot mode and the three entries
    authentication/cached, signature/always, card-authentication/never in
    all-touch-policies mode.  In every run of [setup] the slots for which a
    key is generated are the first entries of that table, in its order.  In
    a run that returns no error they are all of them, each with its
    certificate stored and its two lines printed; and [setup] returns no
    error whenever every call it made succeeded, the query of the
    authentication slot answering "not found" counted as a success, unless
    the slot holds a certificate and overwriting was not asked for. *)
Theorem C4_slots_configured_per_mode :
  forall version env cmd k tr0,
    let out := run env (setup version cmd k) tr0 in
    keySpec cmd
    = (if AllTouchPolicies cmd
       then [ mkSlotSpec SlotAuthentication TouchPolicyCached;
              mkSlotSpec SlotSignature TouchPolicyAlways;
              mkSlotSpec SlotCardAuthentication TouchPolicyNever ]
       else [ mkSlotSpec SlotAuthentication TouchPolicyCached ])
    /\ exists new,
        fst out = tr0 ++ new
        /\ (exists n, generated new = firstn n (keySpec cmd))
        /\ (snd out = Ok tt ->
            generated new = keySpec cmd
            /\ stored new = map slot (keySpec cmd)
            /\ exists keys, List.length keys = List.length (keySpec cmd)
                            /\ output new = key_lines (keySpec cmd) keys)
        /\ (Forall (fun ev => tolerated ev = true) new ->
            snd out = Ok tt
            \/ (ResetSecurityKey cmd = false
                /\ exists cert,
                     new = [Ev (yk_Certificate k SlotAuthentication) (Ok cert)])).
Proof.
  intros version env cmd k tr0 out.
  split; [reflexivity |].
  destruct (post_run env _ _
              (post_and _ _ _ _ (setup_slots_counted version cmd k)
                 (setup_completes version cmd k)) tr0)
    as [new [E [[Hn Hok] Hall]]].
  exists new. subst out. rewrite E. cbn [fst snd]. auto.
Qed.

Example scenario_A :
  let out := run (working [] [0; 0] (Err ErrNotFound))
                 (Run "v1" (aCmd 123456 false false)) [] in
  snd out = Ok tt
  /\ generated (fst out) = [mkSlotSpec SlotAuthentication TouchPolicyCached]
  /\ stored (fst out) = [SlotAuthentication]
  /\ output (fst out)
     = [(key_line_format, ["cached"]);
        (("ecdsa-sha2-nistp256 8" ++ LF)%string, [])].
Proof. repeat split; reflexivity. Qed.

Example scenario_B :
  let out := run (working [] [0; 0; 0; 0; 0; 0] (Err ErrNotFound))
                 (Run "v1" (aCmd 87654321 true false)) [] in
  snd out = Ok tt
  /\ generated (fst out) = allKeySpec
  /\ stored (fst out)
     = [SlotAuthentication; SlotSignature; SlotCardAuthentication]
  /\ map (fun p => snd p) (output (fst out))
     = [["cached"]; []; ["always"]; []; ["never"]; []].
Proof. repeat split; reflexivity. Qed.

Example scenario_D :
  let out := run (working [] [0; 0; 0; 0; 0; 0] (Ok (demo_template 0 0)))
                 (Run "v1" (aCmd 654321 true true)) [] in
  snd out = Ok tt
  /\ nth_error (fst out) 3 = Some (Ev (yk_Reset (yubikey 1)) None)
  /\ generated (fst out) = allKeySpec.
Proof. repeat split; reflexivity. Qed.


Lemma C4_witness :
  let env := working [] [0; 0; 0; 0; 0; 0] (Err ErrNotFound) in
  let single := run env (setup "v1" (aCmd 87654321 false false) (yubikey 1)) [] in
  let all := run env (setup "v1" (aCmd 87654321 true false) (yubikey 1)) [] in
  (Forall (fun ev => tolerated ev = true) (fst single)
   /\ Forall (fun ev => tolerated ev = true) (fst all))
  /\ (snd single = Ok tt
      /\ generated (fst single) = [mkSlotSpec SlotAuthentication TouchPolicyCached]
      /\ stored (fst single) = [SlotAuthentication])
  /\ (snd all = Ok tt
      /\ generated (fst all)
         = [ mkSlotSpec SlotAuthentication TouchPolicyCached;
             mkSlotSpec SlotSignature TouchPolicyAlways;
             mkSlotSpec SlotCardAuthentication TouchPolicyNever ]
      /\ stored (fst all)
         = [SlotAuthentication; SlotSignature; SlotCardAuthentication]).
Proof.
  intros env single all.
  assert (H1 : Forall (fun ev => tolerated ev = true) (fst single))
    by (apply Forall_forall, forallb_forall; vm_compute; reflexivity).
  assert (H3 : Forall (fun ev => tolerated ev = true) (fst all))
    by (apply Forall_forall, forallb_forall; vm_compute; reflexivity).
  split; [split; assumption |].
  split.
  - destruct (C4_slots_configured_per_mode "v1" env (aCmd 87654321 false false)
                (yubikey 1) [])
      as [_ [new [E [_ [Hok Hall]]]]].
    cbn [app] in E. fold single in E, Hok, Hall. rewrite <- E in *.
    destruct (Hall H1) as [Hr | [_ [cert Hnew]]].
    + destruct (Hok Hr) as [Hgen [Hst _]]. auto.
    + apply (f_equal (@List.length Event)) in Hnew. vm_compute in Hnew.
      discriminate Hnew.
  - destruct (C4_slots_configured_per_mode "v1" env (aCmd 87654321 true false)
                (yubikey 1) [])
      as [_ [new [E [_ [Hok Hall]]]]].
    cbn [app] in E. fold all in E, Hok, Hall. rewrite <- E in *.
    destruct (Hall H3) as [Hr | [_ [cert Hnew]]].
    + destruct (Hok Hr) as [Hgen [Hst _]]. auto.
    + apply (f_equal (@List.length Event)) in Hnew. vm_compute in Hnew.
      discriminate Hnew.
Defined.

Lemma C7_witness :
  let env := working ["123456"; "123457"] [] (Err ErrNotFound) in
  let cmd := aCmd 0 true false in
  let tr := fst (run env (Run "v1" cmd) []) in
  let r := snd (run env (Run "v1" cmd) []) in
  (entries tr = [Ok "123456"; Ok "123457"] /\ "123457" <> "123456")
  /\ exists e, r = Err e /\ e = errorf "PIN/PUK entries not equal" []
               /\ is_ValidationError e = true /\ touches_device tr = false.
Proof.
  intros env cmd tr r.
  assert (He : entries tr = [Ok "123456"; Ok "123457"]) by (vm_compute; reflexivity).
  assert (Hne : "123457" <> "123456") by discriminate.
  split; [split; assumption |].
  exact (proj1 (proj2 (C7_interactive_secret_confirmed_before_device "v1" env cmd))
           "123456" "123457" He Hne).
Defined.

Lemma C8_witness :
  let env := working ["654321"; "654321"] [0; 0] (Err ErrNotFound) in
  let cmd := from_flags (mkFlags None None (Some 0) (Some false)) in
  let tr := fst (run env (Run "v1" cmd) []) in
  (PIN cmd = 0 /\ logger_started tr = true /\ touches_device tr = true)
  /\ (nth_error tr 1
        = Some (Ev (fmt_Print "Enter a new PIN/PUK (6-8 digits): ") tt)
      /\ exists answer, nth_error tr 2 = Some (Ev terminal_ReadPassword answer))
  /\ exists rawPIN pin,
      entries tr = [Ok rawPIN; Ok rawPIN]
      /\ ParseUint rawPIN = Ok pin /\ 100000 <= pin <= 99999999.
Proof.
  intros env cmd tr.
  assert (H0 : PIN cmd = 0) by reflexivity.
  assert (Hlog : logger_started tr = true) by (vm_compute; reflexivity).
  assert (Ht : touches_device tr = true) by (vm_compute; reflexivity).
  split; [repeat split; assumption |].
  destruct (proj1 (proj2 (proj2
              (C8_pin_zero_is_no_pin "v1" env None None (Some false)))) cmd H0)
    as [Hprompt Hsecret].
  split; [exact (Hprompt Hlog) | exact (Hsecret Ht)].
Defined.

Example rotation_run :
  let out := run (working [] [0; 0] (Err ErrNotFound))
                 (setup "v1" (aCmd 123456 false false) (yubikey 1)) [] in
  firstn 5 (skipn 1 (fst out))
  = rotation_steps (yubikey 1) "123456" (Ok (repeat Byte.x2a 24))
      None None None None.
Proof. reflexivity. Qed.

(** ** Decimal strings: [ParseUint] and [FormatUint] *)

Lemma ParseUint_digits_step (c : ascii) (k : Z) (rest : string) (n : Z) :
  Z.of_N (N_of_ascii c) = 48 + k -> 0 <= k <= 9 -> 0 <= n <= maxUint64 ->
  ParseUint_digits (String c rest) n
  = if 10 * n + k <=? maxUint64
    then ParseUint_digits rest (10 * n + k)
    else Err ErrRange.
Proof.
  intros Hc Hk Hn. cbn [ParseUint_digits]. rewrite Hc.
  change maxUint64 with 18446744073709551615 in *.
  change (18446744073709551615 / 10 + 1) with 1844674407370955162.
  change (2 ^ 64) with 18446744073709551616.
  replace ((48 <=? 48 + k) && (48 + k <=? 57)) with true
    by (symmetry; apply andb_true_iff; split; apply Z.leb_le; lia).
  replace (48 + k - 48) with k by lia.
  destruct (Z.leb_spec 1844674407370955162 n) as [Hcut | Hcut].
  - destruct (Z.leb_spec (10 * n + k) 18446744073709551615); [lia | reflexivity].
  - replace (n * 10) with (10 * n) by lia.
    destruct (Z.leb_spec (10 * n + k) 18446744073709551615) as [Hfit | Hover].
    + rewrite Z.mod_small by lia.
      replace ((10 * n + k <? 10 * n) || (18446744073709551615 <? 10 * n + k))
        with false; [reflexivity |].
      symmetry. apply orb_false_iff. split; apply Z.ltb_ge; lia.
    + replace ((10 * n + k) mod 18446744073709551616)
        with (10 * n + k - 18446744073709551616).
      * replace (10 * n + k - 18446744073709551616 <? 10 * n) with true;
          [reflexivity |].
        symmetry. apply Z.ltb_lt. lia.
      * apply Z.mod_unique with (q := 1); lia.
Qed.

Lemma of_uint_acc_bounds (d : Decimal.uint) (acc : positive) :
  Zpos acc * 10 ^ Z.of_nat (Decimal.nb_digits d)
  <= Zpos (Pos.of_uint_acc d acc)
  < (Zpos acc + 1) * 10 ^ Z.of_nat (Decimal.nb_digits d).
Proof.
  revert acc; induction d; intros acc;
    cbn [Decimal.nb_digits Pos.of_uint_acc];
    [rewrite Z.pow_0_r; lia | ..];
    rewrite Nat2Z.inj_succ, Z.pow_succ_r by lia;
    match goal with
    | |- context [Pos.of_uint_acc ?l ?a] =>
        specialize (IHd a);
        assert (0 < 10 ^ Z.of_nat (Decimal.nb_digits l))
          by (apply Z.pow_pos_nonneg; lia);
        nia
    end.
Qed.

Ltac digit_step k :=
  rewrite (ParseUint_digits_step _ k);
  [ | reflexivity | lia | first [lia | unfold maxUint64; lia] ].

Lemma ParseUint_digits_acc (d : Decimal.uint) (acc : positive) :
  Zpos acc <= maxUint64 ->
  ParseUint_digits (NilEmpty.string_of_uint d) (Zpos acc)
  = if Zpos (Pos.of_uint_acc d acc) <=? maxUint64
    then Ok (Zpos (Pos.of_uint_acc d acc))
    else Err ErrRange.
Proof.
  revert acc; induction d; intros acc Hacc;
    cbn [NilEmpty.string_of_uint Pos.of_uint_acc].
  1: { cbn [ParseUint_digits].
       destruct (Z.leb_spec (Zpos acc) maxUint64); [reflexivity | lia]. }
  all: match goal with
       | |- context [Pos.of_uint_acc ?l ?a] =>
           pose proof (of_uint_acc_bounds l a) as Hb;
           assert (0 < 10 ^ Z.of_nat (Decimal.nb_digits l))
             by (apply Z.pow_pos_nonneg; lia);
           specialize (IHd a)
       end.
  1: digit_step 0. 2: digit_step 1. 3: digit_step 2. 4: digit_step 3.
  5: digit_step 4. 6: digit_step 5. 7: digit_step 6. 8: digit_step 7.
  9: digit_step 8. 10: digit_step 9.
  all: match goal with
       | |- context [ParseUint_digits _ ?v] =>
           destruct (Z.leb_spec v maxUint64) as [Hfit | Hover]
       end.
  all: try (match goal with
            | |- ParseUint_digits _ ?v = _ =>
                match type of IHd with
                | Zpos ?a <= _ -> _ => replace v with (Zpos a) by lia
                end
            end; apply IHd; lia).
  all: match goal with
       | |- context [Ok ?v] =>
           destruct (Z.leb_spec v maxUint64); [exfalso; nia | reflexivity]
       end.
Qed.

Lemma ParseUint_digits_zero (d : Decimal.uint) :
  ParseUint_digits (NilEmpty.string_of_uint d) 0
  = if Z.of_N (Pos.of_uint d) <=? maxUint64
    then Ok (Z.of_N (Pos.of_uint d))
    else Err ErrRange.
Proof.
  induction d; cbn [NilEmpty.string_of_uint Pos.of_uint Z.of_N].
  1: reflexivity.
  1: { digit_step 0. exact IHd. }
  all: match goal with
       | |- ParseUint_digits (String ?c _) 0 = _ =>
           let k := eval cbv in (Z.of_N (N_of_ascii c) - 48) in
           digit_step k;
           change (10 * 0 + k) with k;
           change (k <=? maxUint64) with true; cbv iota;
           apply ParseUint_digits_acc; unfold maxUint64; lia
       end.
Qed.

Lemma length_string_of_uint (d : Decimal.uint) :
  String.length (NilEmpty.string_of_uint d) = Decimal.nb_digits d.
Proof. induction d; cbn; congruence. Qed.

Lemma all_digits_string_of_uint (d : Decimal.uint) :
  all_digits (NilEmpty.string_of_uint d) = true.
Proof. induction d; cbn [NilEmpty.string_of_uint all_digits]; auto. Qed.

Lemma string_of_uint_nil (d : Decimal.uint) :
  NilEmpty.string_of_uint d = EmptyString -> d = Decimal.Nil.
Proof. destruct d; cbn; congruence. Qed.

Lemma digit_cases (c : ascii) :
  is_digit c = true ->
  In c ["0"; "1"; "2"; "3"; "4"; "5"; "6"; "7"; "8"; "9"]%char.
Proof.
  destruct c as [b0 b1 b2 b3 b4 b5 b6 b7].
  destruct b0, b1, b2, b3, b4, b5, b6, b7; intros H;
    try discriminate H;
    cbn [In]; repeat (first [left; reflexivity | right]).
Qed.

Lemma all_digits_uint (s : string) :
  all_digits s = true -> exists d, NilEmpty.string_of_uint d = s.
Proof.
  induction s as [| c rest IH]; cbn [all_digits]; intros H.
  - exists Decimal.Nil. reflexivity.
  - apply andb_true_iff in H. destruct H as [Hc Hrest].
    destruct (IH Hrest) as [d <-].
    apply digit_cases in Hc. cbn [In] in Hc.
    destruct Hc as [<- | [<- | [<- | [<- | [<- | [<- | [<- | [<- | [<- | [<- | []]]]]]]]]]].
    + exists (Decimal.D0 d). reflexivity.
    + exists (Decimal.D1 d). reflexivity.
    + exists (Decimal.D2 d). reflexivity.
    + exists (Decimal.D3 d). reflexivity.
    + exists (Decimal.D4 d). reflexivity.
    + exists (Decimal.D5 d). reflexivity.
    + exists (Decimal.D6 d). reflexivity.
    + exists (Decimal.D7 d). reflexivity.
    + exists (Decimal.D8 d). reflexivity.
    + exists (Decimal.D9 d). reflexivity.
Qed.

Lemma ParseUint_digits_all_digits (s : string) (acc n : Z) :
  ParseUint_digits s acc = Ok n -> all_digits s = true.
Proof.
  revert acc; induction s as [| c rest IH]; intros acc H; [reflexivity |].
  cbn [ParseUint_digits all_digits] in *. unfold is_digit.
  destruct ((48 <=? Z.of_N (N_of_ascii c)) && (Z.of_N (N_of_ascii c) <=? 57));
    [| discriminate H].
  cbn [andb].
  destruct (maxUint64 / 10 + 1 <=? acc); [discriminate H |].
  match type of H with
  | (if ?b then _ else _) = _ => destruct b; [discriminate H |]
  end.
  eapply IH, H.
Qed.

Lemma strip_string_of_uint (d : Decimal.uint) :
  strip (NilEmpty.string_of_uint d) = NilEmpty.string_of_uint (Decimal.nzhead d).
Proof. induction d; cbn; auto. Qed.

Lemma strip_zeros_string_of_uint (d : Decimal.uint) :
  strip_zeros (NilEmpty.string_of_uint d)
  = NilEmpty.string_of_uint (Decimal.unorm d).
Proof.
  unfold strip_zeros, Decimal.unorm. rewrite strip_string_of_uint.
  destruct (Decimal.nzhead d); reflexivity.
Qed.

Lemma of_uint_upper (d : Decimal.uint) :
  Z.of_N (Pos.of_uint d) < 10 ^ Z.of_nat (Decimal.nb_digits d).
Proof.
  induction d; cbn [Pos.of_uint Decimal.nb_digits Z.of_N];
    [reflexivity | ..];
    rewrite Nat2Z.inj_succ, Z.pow_succ_r by lia;
    match goal with
    | |- context [Decimal.nb_digits ?l] =>
        assert (0 < 10 ^ Z.of_nat (Decimal.nb_digits l))
          by (apply Z.pow_pos_nonneg; lia)
    end;
    try match goal with
        | |- context [Pos.of_uint_acc ?l ?a] =>
            pose proof (of_uint_acc_bounds l a)
        end;
    nia.
Qed.

Lemma of_uint_lower (d : Decimal.uint) :
  Decimal.nzhead d = d -> d <> Decimal.Nil ->
  10 ^ Z.of_nat (pred (Decimal.nb_digits d)) <= Z.of_N (Pos.of_uint d).
Proof.
  intros Hnz Hnil. destruct d; [congruence | | ..].
  1: { exfalso. exact (DecimalFacts.nzhead_nonzero _ _ Hnz). }
  all: cbn [Pos.of_uint Decimal.nb_digits Z.of_N pred];
    match goal with
    | |- context [Pos.of_uint_acc ?l ?a] =>
        pose proof (of_uint_acc_bounds l a);
        assert (0 < 10 ^ Z.of_nat (Decimal.nb_digits l))
          by (apply Z.pow_pos_nonneg; lia)
    end; nia.
Qed.

(** What [ParseUint] accepts: a non-empty string of decimal digits whose
    value fits 64 bits; [FormatUint] of the value is the string without its
    leading zeros. *)
Lemma ParseUint_Ok (s : string) (n : Z) :
  ParseUint s = Ok n ->
  s <> EmptyString
  /\ all_digits s = true
  /\ 0 <= n <= maxUint64
  /\ n < 10 ^ Z.of_nat (String.length s)
  /\ FormatUint n = strip_zeros s.
Proof.
  intros H. destruct s as [| c rest]; [discriminate H |].
  unfold ParseUint in H.
  pose proof (ParseUint_digits_all_digits _ _ _ H) as Hd.
  split; [discriminate |]. split; [exact Hd |].
  destruct (all_digits_uint _ Hd) as [d Es].
  rewrite <- Es in *. rewrite ParseUint_digits_zero in H.
  destruct (Z.leb_spec (Z.of_N (Pos.of_uint d)) maxUint64) as [Hfit |];
    [| discriminate H].
  injection H as <-.
  split; [lia |].
  split; [rewrite length_string_of_uint; apply of_uint_upper |].
  unfold FormatUint. rewrite N2Z.id.
  change (Pos.of_uint d) with (N.of_uint d).
  rewrite DecimalN.Unsigned.to_of. symmetry. apply strip_zeros_string_of_uint.
Qed.

(** [FormatUint] then [ParseUint] gives the number back. *)
Lemma ParseUint_FormatUint (n : Z) :
  0 <= n <= maxUint64 -> ParseUint (FormatUint n) = Ok n.
Proof.
  intros Hn. unfold FormatUint.
  assert (Hnil : N.to_uint (Z.to_N n) <> Decimal.Nil).
  { destruct (Z.to_N n); cbn [N.to_uint];
      [discriminate | apply DecimalPos.Unsigned.to_uint_nonnil]. }
  assert (Hs : NilEmpty.string_of_uint (N.to_uint (Z.to_N n)) <> EmptyString).
  { intros E. apply string_of_uint_nil in E. contradiction. }
  unfold ParseUint.
  destruct (NilEmpty.string_of_uint (N.to_uint (Z.to_N n))) eqn:E;
    [contradiction |].
  rewrite <- E, ParseUint_digits_zero.
  change (Pos.of_uint (N.to_uint (Z.to_N n)))
    with (N.of_uint (N.to_uint (Z.to_N n))).
  rewrite DecimalN.Unsigned.of_to, Z2N.id by lia.
  destruct (Z.leb_spec n maxUint64); [reflexivity | lia].
Qed.

(** A number of the range of the PIN has six to eight decimal digits. *)
Lemma FormatUint_six_to_eight (n : Z) :
  100000 <= n <= 99999999 ->
  (6 <= String.length (FormatUint n) <= 8)%nat
  /\ all_digits (FormatUint n) = true
  /\ strip_zeros (FormatUint n) = FormatUint n.
Proof.
  intros Hn. unfold FormatUint.
  set (d := N.to_uint (Z.to_N n)).
  assert (Hof : N.of_uint d = Z.to_N n) by apply DecimalN.Unsigned.of_to.
  assert (Hun : Decimal.unorm d = d).
  { rewrite <- (DecimalN.Unsigned.to_of d), Hof. reflexivity. }
  assert (Hnz : Decimal.nzhead d = d /\ d <> Decimal.Nil).
  { unfold Decimal.unorm in Hun.
    destruct (Decimal.nzhead d) eqn:E; try (split; congruence).
    exfalso. rewrite <- Hun in Hof. cbn in Hof. lia. }
  destruct Hnz as [Hnz Hnil].
  pose proof (of_uint_upper d) as Hup.
  pose proof (of_uint_lower d Hnz Hnil) as Hlo.
  change (Pos.of_uint d) with (N.of_uint d) in *.
  rewrite Hof, Z2N.id in * by lia.
  rewrite length_string_of_uint, all_digits_string_of_uint,
    strip_zeros_string_of_uint, Hun.
  split; [| split; reflexivity].
  assert (H5 : 10 ^ 5 < 10 ^ Z.of_nat (Decimal.nb_digits d)) by (change (10 ^ 5) with 100000; lia).
  assert (H8 : 10 ^ Z.of_nat (pred (Decimal.nb_digits d)) < 10 ^ 8)
    by (change (10 ^ 8) with 100000000; lia).
  apply Z.pow_lt_mono_r_iff in H5; [| lia | lia].
  apply Z.pow_lt_mono_r_iff in H8; [| lia | lia].
  lia.
Qed.

(** ** How [Run] composes the validator and [setup] *)

Lemma defer_setup_sync version cmd k log acc
    (S : SetupCmd -> YubiKey -> Trace -> result unit -> Prop) :
  post (setup version cmd k) [] (S cmd k) ->
  post (defer (setup version cmd k) (Do (log_Sync log) (fun _ => Ret tt))) acc
    (fun tr r => exists new s, tr = acc ++ new ++ [Ev (log_Sync log) s]
                               /\ S cmd k new r).
Proof.
  intros HS. apply post_defer.
  eapply post_mono; [| apply post_anywhere, HS].
  intros tr r [new [-> H]]. cbn [post]. intros s.
  exists new, s. split; [now rewrite app_assoc | exact H].
Qed.

Ltac reaches_with pre :=
  right; eexists _, pre, _, _, _, _;
  split; [reflexivity |];
  split; [repeat constructor |];
  split; [| eassumption];
  split; [assumption |];
  match goal with
  | H : PIN _ = 0 |- _ =>
      rewrite H; change (0 =? 0) with true; cbv iota;
      eexists; split; [reflexivity | eassumption]
  | H : PIN _ <> 0 |- _ =>
      apply Z.eqb_neq in H; rewrite H; split; reflexivity
  end.

Lemma Run_composes version cmd
    (S : SetupCmd -> YubiKey -> Trace -> result unit -> Prop) :
  (forall cmd k, post (setup version cmd k) [] (S cmd k)) ->
  post (Run version cmd) [] (fun tr r => Run_stops cmd tr r \/ Run_reaches S cmd tr r).
Proof.
  intros HS. unfold Run, interactivePIN. exec_post.
  all: repeat match goal with u : unit |- _ => destruct u end.
  all: cbn [PIN with_PIN Card] in *.
  all: validator_facts.
  all: try solve [left; split; [repeat constructor |];
                  split; [eauto |];
                  split; [| reflexivity];
                  intros Hne; first [contradiction | repeat constructor]].
  all: (eapply post_mono; [| apply defer_setup_sync, HS]);
    intros tr r [new [s [-> H]]]; cbn [app].
  - match goal with
    | |- context [Ev zap_NewDevelopment _ :: ?p1 :: ?p2 :: ?p3 :: ?p4 :: ?p5 :: ?p6
                  :: Ev (getSecurityKey _) _ :: _] =>
        reaches_with [p1; p2; p3; p4; p5; p6]
    end.
  - reaches_with (@nil Event).
Qed.

Lemma Run_composed version env cmd
    (S : SetupCmd -> YubiKey -> Trace -> result unit -> Prop) :
  (forall cmd k, post (setup version cmd k) [] (S cmd k)) ->
  Run_stops cmd (fst (run env (Run version cmd) []))
                (snd (run env (Run version cmd) []))
  \/ Run_reaches S cmd (fst (run env (Run version cmd) []))
                       (snd (run env (Run version cmd) [])).
Proof.
  intros HS.
  destruct (post_run env _ _ (Run_composes version cmd S HS) []) as [new [E H]].
  rewrite E at 1 3. exact H.
Qed.

Lemma setup_stays_in_setup version cmd k :
  post (setup version cmd k) [] (stays_in_setup cmd k).
Proof.
  apply post_mono
    with (Q := fun tr _ => throughout (fun _ ev => origin ev <> ByRun) tr);
    [| apply always_post; [| apply throughout_nil]].
  - intros tr r H. apply throughout_Forall, H.
  - apply always_setup.
    + intros l0 l ev H. exact H.
    + intros h ev H. congruence.
    + intros. apply configureSlot_not_ByRun.
Qed.

Lemma not_ByRun_quiet (l : Trace) :
  Forall (fun ev => origin ev <> ByRun) l ->
  entries l = []
  /\ Forall (fun ev => is_terminal ev = false) l
  /\ Forall (fun ev => is_sync ev = false) l.
Proof.
  intros H. split; [now apply entries_not_ByRun |].
  split; (eapply Forall_impl; [| exact H]);
    intros [X c x] Ho; destruct c; try reflexivity; now elim Ho.
Qed.

(** ** The PIN and the PUK that are set *)

Lemma configureSlot_sets_no_secret version cmd k mk slot touchPolicy (P : string -> Prop) :
  always (fun _ ev => forall old new', secret_set ev = Some (old, new') -> P new') []
    (configureSlot version cmd k mk slot touchPolicy).
Proof.
  unfold configureSlot.
  exec_always ltac:(intros ? ? H; discriminate H).
Qed.

Lemma setup_sets_secret version cmd k :
  post (setup version cmd k) [] (sets_secret cmd k).
Proof.
  apply post_mono
    with (Q := fun tr r =>
                 stays_in_setup cmd k tr r
                 /\ Forall (fun ev => forall old new',
                                secret_set ev = Some (old, new') ->
                                new' = FormatUint (PIN cmd)) tr);
    [intros tr r H; exact H |].
  apply post_and; [apply setup_stays_in_setup |].
  apply post_mono
    with (Q := fun tr _ =>
                 throughout (fun _ ev => forall old new',
                                 secret_set ev = Some (old, new') ->
                                 new' = FormatUint (PIN cmd)) tr);
    [| apply always_post; [| apply throughout_nil]].
  - intros tr _ H. apply throughout_Forall, H.
  - unfold setup.
    exec_always ltac:(intros ? ? H; cbn [secret_set ev_call] in H;
                      first [discriminate H | injection H as _ <-; reflexivity]).
    all: apply always_configureSlots;
      [intros l0 l ev H; exact H
      | intros; apply configureSlot_sets_no_secret].
Qed.

Lemma secret_set_not_ByRun ev p :
  secret_set ev = Some p -> origin ev <> ByRun.
Proof. destruct ev as [X c x]. destruct c; discriminate. Qed.

Lemma secret_set_in_setup S cmd tr r ev p :
  Run_reaches S cmd tr r -> In ev tr -> secret_set ev = Some p ->
  exists log pre pin k new s,
    tr = Ev zap_NewDevelopment (Ok log)
         :: pre ++ Ev (getSecurityKey (Card cmd)) (Ok k)
         :: new ++ [Ev (log_Sync log) s]
    /\ Forall (fun ev => is_terminal ev = true) pre
    /\ secret_from cmd pre pin
    /\ S (with_PIN cmd pin) k new r
    /\ In ev new.
Proof.
  intros [log [pre [pin [k [new [s [E [Hpre [Hpin HS]]]]]]]]] Hin Hev.
  exists log, pre, pin, k, new, s. repeat (split; [assumption |]).
  rewrite E in Hin. cbn [In] in Hin.
  destruct Hin as [<- | Hin]; [discriminate Hev |].
  apply in_app_or in Hin. destruct Hin as [Hin | [<- | Hin]];
    [| discriminate Hev |].
  - exfalso. rewrite Forall_forall in Hpre. specialize (Hpre ev Hin).
    destruct ev as [X c x]. destruct c; discriminate.
  - apply in_app_or in Hin. destruct Hin as [Hin | [<- | []]];
      [exact Hin | discriminate Hev].
Qed.

(** X1: every PIN and every PUK that a run of the command sets on the
    device is the decimal form of a number within [100000, 99999999]: a
    string of six to eight decimal digits without a leading zero. *)
Theorem X1_secret_set_has_six_to_eight_digits :
  forall version env cmd ev old new',
    In ev (fst (run env (Run version cmd) [])) ->
    secret_set ev = Some (old, new') ->
    exists pin,
      new' = FormatUint pin
      /\ 100000 <= pin <= 99999999
      /\ (6 <= String.length new' <= 8)%nat
      /\ all_digits new' = true
      /\ strip_zeros new' = new'.
Proof.
  intros version env cmd ev old new' Hin Hev.
  destruct (Run_composed version env cmd sets_secret (setup_sets_secret version))
    as [[Horigin _] | Hreach].
  - exfalso. rewrite Forall_forall in Horigin.
    exact (secret_set_not_ByRun _ _ Hev (Horigin ev Hin)).
  - destruct (secret_set_in_setup _ _ _ _ _ _ Hreach Hin Hev)
      as [log [pre [pin [k [new [s [_ [_ [[Hrange _] [[_ Hset] Hnew]]]]]]]]]].
    rewrite Forall_forall in Hset.
    specialize (Hset ev Hnew old new' Hev). cbn [PIN with_PIN] in Hset.
    exists pin. subst new'.
    split; [reflexivity |]. split; [exact Hrange |].
    now apply FormatUint_six_to_eight.
Qed.

Lemma X1_witness :
  let tr := fst (run (working [] [0; 0] (Err ErrNotFound))
                   (Run "v1" (aCmd 123456 false false)) []) in
  (In (Ev (yk_SetPUK (yubikey 1) "12345678" "123456") None) tr
   /\ secret_set (Ev (yk_SetPUK (yubikey 1) "12345678" "123456") None)
      = Some ("12345678", "123456"))
  /\ exists pin,
      "123456" = FormatUint pin
      /\ 100000 <= pin <= 99999999
      /\ (6 <= String.length "123456" <= 8)%nat
      /\ all_digits "123456" = true
      /\ strip_zeros "123456" = "123456".
Proof.
  intros tr.
  assert (Hin : In (Ev (yk_SetPUK (yubikey 1) "12345678" "123456") None) tr)
    by in_trace.
  split; [split; [exact Hin | reflexivity] |].
  exact (X1_secret_set_has_six_to_eight_digits "v1"
           (working [] [0; 0] (Err ErrNotFound)) (aCmd 123456 false false)
           _ "12345678" "123456" Hin eq_refl).
Defined.

(** X2: when the secret is typed at the prompt, the entry accepted is made
    of decimal digits only, at least six of them, and the PIN and the PUK
    set on the device are that entry without its leading zeros: the value
    set differs from what was typed when the entry starts with a zero. *)
Theorem X2_typed_secret_is_set_without_leading_zeros :
  forall version env cmd ev old new',
    PIN cmd = 0 ->
    In ev (fst (run env (Run version cmd) [])) ->
    secret_set ev = Some (old, new') ->
    exists rawPIN,
      entries (fst (run env (Run version cmd) [])) = [Ok rawPIN; Ok rawPIN]
      /\ all_digits rawPIN = true
      /\ (6 <= String.length rawPIN)%nat
      /\ new' = strip_zeros rawPIN.
Proof.
  intros version env cmd ev old new' H0 Hin Hev.
  destruct (Run_composed version env cmd sets_secret (setup_sets_secret version))
    as [[Horigin _] | Hreach].
  - exfalso. rewrite Forall_forall in Horigin.
    exact (secret_set_not_ByRun _ _ Hev (Horigin ev Hin)).
  - destruct (secret_set_in_setup _ _ _ _ _ _ Hreach Hin Hev)
      as [log [pre [pin [k [new [s [E [_ [[Hrange Hfrom] [[Hquiet Hset] Hnew]]]]]]]]]].
    rewrite H0 in Hfrom. change (0 =? 0) with true in Hfrom. cbv iota in Hfrom.
    destruct Hfrom as [rawPIN [Hentries Hparse]].
    rewrite Forall_forall in Hset.
    specialize (Hset ev Hnew old new' Hev). cbn [PIN with_PIN] in Hset.
    destruct (ParseUint_Ok _ _ Hparse) as [_ [Hdigits [_ [Hlen Hformat]]]].
    exists rawPIN.
    split.
    { rewrite E. change (entries (?a :: ?l)) with (entry a ++ entries l).
      cbn [entry ev_call ev_resp app].
      rewrite entries_app.
      change (entries (?a :: ?l)) with (entry a ++ entries l).
      cbn [entry ev_call ev_resp app].
      rewrite entries_app.
      destruct (not_ByRun_quiet new Hquiet) as [-> _].
      rewrite Hentries. reflexivity. }
    split; [exact Hdigits |].
    split; [| congruence].
    assert (H5 : 10 ^ 5 < 10 ^ Z.of_nat (String.length rawPIN))
      by (change (10 ^ 5) with 100000; lia).
    apply Z.pow_lt_mono_r_iff in H5; lia.
Qed.

Lemma X2_witness :
  let env := working ["00123456"; "00123456"] [0; 0] (Err ErrNotFound) in
  let cmd := aCmd 0 false false in
  let tr := fst (run env (Run "v1" cmd) []) in
  (PIN cmd = 0
   /\ In (Ev (yk_SetPIN (yubikey 1) "123456" "123456") None) tr
   /\ secret_set (Ev (yk_SetPIN (yubikey 1) "123456" "123456") None)
      = Some ("123456", "123456"))
  /\ exists rawPIN,
      entries tr = [Ok rawPIN; Ok rawPIN]
      /\ all_digits rawPIN = true
      /\ (6 <= String.length rawPIN)%nat
      /\ "123456" = strip_zeros rawPIN.
Proof.
  intros env cmd tr.
  assert (Hin : In (Ev (yk_SetPIN (yubikey 1) "123456" "123456") None) tr)
    by in_trace.
  split; [split; [reflexivity | split; [exact Hin | reflexivity]] |].
  exact (X2_typed_secret_is_set_without_leading_zeros "v1" env cmd
           _ "123456" "123456" eq_refl Hin eq_refl).
Defined.

Example leading_zeros_run :
  let out := run (working ["00123456"; "00123456"] [0; 0] (Err ErrNotFound))
                 (Run "v1" (aCmd 0 false false)) [] in
  snd out = Ok tt
  /\ entries (fst out) = [Ok "00123456"; Ok "00123456"]
  /\ nth_error (fst out) 12 = Some (Ev (yk_SetPIN (yubikey 1) "123456" "123456") None).
Proof. repeat split; reflexivity. Qed.

(** ** The factory reset *)

Lemma filter_nil_Forall (f : Event -> bool) (l : Trace) :
  Forall (fun ev => f ev = false) l -> filter f l = [].
Proof.
  induction 1 as [| ev l Hev _ IH]; [reflexivity |].
  cbn [filter]. rewrite Hev. exact IH.
Qed.

Lemma slots_no_reset (l : Trace) :
  Forall (fun ev => origin ev = ByConfigureSlot) l -> filter is_reset l = [].
Proof.
  intros H. apply filter_nil_Forall. eapply Forall_impl; [| exact H].
  intros [X c x] Ho. destruct c; try reflexivity; discriminate Ho.
Qed.

Lemma setup_reset_guarded version cmd k :
  post (setup version cmd k) [] (reset_guarded cmd k).
Proof.
  apply post_mono
    with (Q := fun tr r =>
                 stays_in_setup cmd k tr r
                 /\ (filter is_reset tr = []
                     \/ (ResetSecurityKey cmd = true
                         /\ exists cert answer rest,
                              tr = Ev (yk_Certificate k SlotAuthentication) (Ok cert)
                                   :: Ev (yk_Reset k) answer :: rest
                              /\ filter is_reset rest = [])));
    [intros tr r H; exact H |].
  apply post_and; [apply setup_stays_in_setup |].
  unfold setup. exec_post.
  all: try match goal with
           | H : negb (ResetSecurityKey _) = false |- _ =>
               apply negb_false_iff in H
           end.
  all: try solve [left; reflexivity].
  all: try solve [right; split; [assumption |];
                  eexists _, _, _; split; reflexivity].
  all: (eapply post_mono; [| apply post_anywhere, configureSlots_origin]);
    intros tr r [new [-> Hnew]]; apply slots_no_reset in Hnew; cbn [app].
  - right. split; [assumption |].
    eexists _, _, _. split; [reflexivity |].
    cbn [filter is_reset ev_call]. exact Hnew.
  - left. cbn [filter is_reset ev_call]. exact Hnew.
Qed.

Lemma ByRun_no_mutation (l : Trace) :
  Forall (fun ev => origin ev = ByRun) l ->
  filter is_mutation l = [] /\ filter is_reset l = [].
Proof.
  intros H. split; apply filter_nil_Forall; (eapply Forall_impl; [| exact H]);
    intros [X c x] Ho; destruct c; try reflexivity; discriminate Ho.
Qed.

Lemma terminal_ByRun (l : Trace) :
  Forall (fun ev => is_terminal ev = true) l ->
  Forall (fun ev => origin ev = ByRun) l.
Proof.
  intros H. eapply Forall_impl; [| exact H].
  intros [X c x] Ht. destruct c; try reflexivity; discriminate Ht.
Qed.

(** X3: in every run of the command the device is reset at most once, and
    only when the overwrite flag is set and the query of the authentication
    slot just before found a certificate; no call before the reset changes
    the device. *)
Theorem X3_reset_only_when_authorised :
  forall version env cmd,
    let tr := fst (run env (Run version cmd) []) in
    filter is_reset tr = []
    \/ (ResetSecurityKey cmd = true
        /\ exists l0 k cert answer rest,
             tr = l0 ++ Ev (yk_Certificate k SlotAuthentication) (Ok cert)
                     :: Ev (yk_Reset k) answer :: rest
             /\ filter is_mutation l0 = []
             /\ filter is_reset rest = []).
Proof.
  intros version env cmd tr. subst tr.
  destruct (Run_composed version env cmd reset_guarded (setup_reset_guarded version))
    as [[Horigin _] | [log [pre [pin [k [new [s [E [Hpre [_ [Hquiet Hreset]]]]]]]]]]].
  - left. apply ByRun_no_mutation, Horigin.
  - rewrite E. apply terminal_ByRun in Hpre.
    assert (Hhead : Forall (fun ev => origin ev = ByRun)
                      (Ev zap_NewDevelopment (Ok log)
                       :: pre ++ [Ev (getSecurityKey (Card cmd)) (Ok k)])).
    { constructor; [reflexivity |]. apply Forall_app. split; [exact Hpre |].
      repeat constructor. }
    destruct (ByRun_no_mutation _ Hhead) as [Hmut Hres].
    change (Ev zap_NewDevelopment (Ok log)
            :: pre ++ Ev (getSecurityKey (Card cmd)) (Ok k)
            :: new ++ [Ev (log_Sync log) s])
      with ((Ev zap_NewDevelopment (Ok log) :: pre)
            ++ [Ev (getSecurityKey (Card cmd)) (Ok k)]
            ++ new ++ [Ev (log_Sync log) s]).
    rewrite app_assoc.
    change ((Ev zap_NewDevelopment (Ok log) :: pre)
            ++ [Ev (getSecurityKey (Card cmd)) (Ok k)])
      with (Ev zap_NewDevelopment (Ok log)
            :: pre ++ [Ev (getSecurityKey (Card cmd)) (Ok k)]).
    set (head := Ev zap_NewDevelopment (Ok log)
                 :: pre ++ [Ev (getSecurityKey (Card cmd)) (Ok k)]) in *.
    destruct Hreset as [Hnone | [Hflag [cert [answer [rest [-> Hrest]]]]]].
    + left. rewrite !filter_app, Hres, Hnone. reflexivity.
    + right. split; [exact Hflag |].
      exists head, k, cert, answer, (rest ++ [Ev (log_Sync log) s]).
      split; [reflexivity |]. split; [exact Hmut |].
      rewrite filter_app, Hrest. reflexivity.
Qed.

Example reset_run :
  let tr := fst (run (working [] [0; 0] (Ok (demo_template 0 0)))
                   (Run "v1" (aCmd 123456 false true)) []) in
  filter is_reset tr = [Ev (yk_Reset (yubikey 1)) None]
  /\ filter is_reset
       (fst (run (working [] [0; 0] (Ok (demo_template 0 0)))
               (Run "v1" (aCmd 123456 false false)) [])) = [].
Proof. split; reflexivity. Qed.

(** ** One management key, one handle *)









(** ** The deferred [log.Sync] *)

Ltac sync_leaf :=
  right;
  match goal with
  | |- exists _ _ _, (_ :: ?rest) = _ /\ _ =>
      eexists _, (removelast rest), _; cbn [removelast app];
      split; [reflexivity | repeat constructor]
  end.

Lemma Run_sync_deferred version cmd :
  post (Run version cmd) [] sync_deferred.
Proof.
  unfold Run, interactivePIN, sync_deferred. exec_post.
  all: repeat match goal with u : unit |- _ => destruct u end.
  all: try solve [left; eauto].
  all: try solve [sync_leaf].
  all: (eapply post_mono;
        [| apply defer_setup_sync with (S := stays_in_setup),
             setup_stays_in_setup]);
    intros tr r [new [s [-> H]]];
    destruct (not_ByRun_quiet new H) as [_ [_ Hsync]];
    right;
    match goal with
    | |- exists _ _ _, (_ :: ?mid) ++ _ = _ /\ _ =>
        eexists _, (mid ++ new), _;
        split; [reflexivity |];
        apply Forall_app; split; [repeat constructor | exact Hsync]
    end.
Qed.

(** X5: [log.Sync] is deferred.  When the logger cannot be set up, that call
    is the only one and its error is returned wrapped; otherwise the last
    call of the run, on every path, is [log.Sync] on the logger that was set
    up, and it is made once. *)
Theorem X5_log_sync_is_last_on_every_path :
  forall version env cmd,
    let tr := fst (run env (Run version cmd) []) in
    let r := snd (run env (Run version cmd) []) in
    (exists e, tr = [Ev zap_NewDevelopment (Err e)]
               /\ r = Err (wrapf "couldn't init logger: %w" [] e))
    \/ (exists log body s,
          tr = Ev zap_NewDevelopment (Ok log) :: body ++ [Ev (log_Sync log) s]
          /\ Forall (fun ev => is_sync ev = false) body).
Proof.
  intros version env cmd. cbv zeta.
  destruct (post_run env _ _ (Run_sync_deferred version cmd) []) as [new [E H]].
  rewrite E. cbn [fst snd app]. exact H.
Qed.

(** ** Errors wrap their cause *)

Ltac explain_leaf :=
  match goal with
  | |- explains ?new _ =>
      exists (removelast new), (last new (Ev time_Now 0)); eexists;
      cbn [removelast last app];
      split; [reflexivity |];
      split; [reflexivity | repeat constructor]
  end.

Lemma explains_app l new e : explains new e -> explains (l ++ new) e.
Proof.
  intros [l' [ev [c [-> [Hc Hw]]]]].
  exists (l ++ l'), ev, c. rewrite app_assoc. auto.
Qed.

Lemma configureSlot_explains version cmd k mk slot touchPolicy :
  post (configureSlot version cmd k mk slot touchPolicy) []
    (fun new r => forall e, r = Err e -> explains new e).
Proof.
  unfold configureSlot. exec_post.
  all: try discriminate.
  all: match goal with
       | H : Err _ = Err _ |- _ => injection H as <-
       end; explain_leaf.
Qed.

Lemma configureSlots_explains version cmd k mk keySpec :
  post (configureSlots version cmd k mk keySpec) []
    (fun new r => forall e, r = Err e -> explains new e).
Proof.
  induction keySpec as [| ss rest IH].
  - cbn. discriminate.
  - unfold configureSlots. cbn [for_range].
    change (for_range rest _) with (configureSlots version cmd k mk rest).
    apply post_bind, post_bind, post_returned.
    eapply post_mono; [| apply configureSlot_explains].
    intros new r H. destruct r as [[] | cause]; cbn [post].
    + eapply post_mono; [| apply post_anywhere, IH].
      intros tr r [new' [-> H']] err Herr. apply explains_app, H', Herr.
    + intros err Herr. injection Herr as <-.
      destruct (H cause eq_refl) as [l [ev [c [-> [Hc Hw]]]]].
      exists l, ev, c. split; [reflexivity |]. split; [exact Hc |].
      apply wraps_inner, Hw.
Qed.

Lemma setup_error_explained version cmd k :
  post (setup version cmd k) [] (error_explained cmd k).
Proof.
  unfold setup, error_explained. exec_post.
  all: try match goal with
           | H : Err _ = Err _ |- _ => injection H as <-
           end.
  all: try solve [left; reflexivity].
  all: try solve [right; explain_leaf].
  all: (eapply post_mono; [| apply post_anywhere, configureSlots_explains]);
    intros tr r [new [-> Hnew]] err Herr; right; apply explains_app, Hnew, Herr.
Qed.

(** X6: an error that [setup] returns is the already-provisioned error, or
    it wraps, through [%w], the error of the call that failed, which is the
    last call of the run: the cause can be found with [errors.Is]. *)
Theorem X6_setup_error_wraps_the_failed_call :
  forall version env cmd k tr0 e,
    snd (run env (setup version cmd k) tr0) = Err e ->
    is_AlreadyProvisionedError e = true
    \/ exists l ev c,
         fst (run env (setup version cmd k) tr0) = tr0 ++ l ++ [ev]
         /\ failure_of ev = Some c
         /\ wraps e c.
Proof.
  intros version env cmd k tr0 e He.
  destruct (post_run env _ _ (setup_error_explained version cmd k) tr0)
    as [new [E H]].
  destruct (H e He) as [Hap | [l [ev [c [-> [Hc Hw]]]]]]; [left; exact Hap |].
  right. exists l, ev, c. rewrite E. auto.
Qed.

Lemma X6_witness :
  let env := failing_at 14 (errorString "device error")
               (working [] [0; 0; 0; 0; 0; 0] (Err ErrNotFound)) in
  let cmd := aCmd 123456 true false in
  let out := run env (setup "v1" cmd (yubikey 1)) [] in
  let e := wrapf "couldn't configure slot %v: %w" [opSlot SlotAuthentication]
             (wrapf "couldn't get SSH public key: %w" []
                (errorString "device error")) in
  snd out = Err e
  /\ (is_AlreadyProvisionedError e = true
      \/ exists l ev c,
           fst out = [] ++ l ++ [ev]
           /\ failure_of ev = Some c
           /\ wraps e c).
Proof.
  intros env cmd out e.
  assert (He : snd out = Err e) by (vm_compute; reflexivity).
  split; [exact He |].
  exact (X6_setup_error_wraps_the_failed_call "v1" env cmd (yubikey 1) [] e He).
Defined.

(** ** A run without the terminal *)

(** X7: with a PIN flag other than 0 the command never prints a prompt and
    never reads the terminal, whatever else happens. *)
Theorem X7_pin_flag_means_no_terminal :
  forall version env cmd,
    PIN cmd <> 0 ->
    Forall (fun ev => is_terminal ev = false) (fst (run env (Run version cmd) []))
    /\ entries (fst (run env (Run version cmd) [])) = [].
Proof.
  intros version env cmd Hflag.
  assert (H : Forall (fun ev => is_terminal ev = false)
                (fst (run env (Run version cmd) []))).
  { destruct (Run_composed version env cmd stays_in_setup
                (setup_stays_in_setup version))
      as [[_ [_ [Hquiet _]]] | [log [pre [pin [k [new [s [E [_ [[_ Hfrom] Hnew]]]]]]]]]].
    - exact (Hquiet Hflag).
    - apply Z.eqb_neq in Hflag. rewrite Hflag in Hfrom.
      destruct Hfrom as [_ ->]. rewrite E. cbn [app].
      destruct (not_ByRun_quiet new Hnew) as [_ [Hterm _]].
      constructor; [reflexivity |]. constructor; [reflexivity |].
      apply Forall_app. split; [exact Hterm | repeat constructor]. }
  split; [exact H |].
  unfold entries. induction H as [| ev l Hev _ IH]; [reflexivity |].
  cbn [flat_map]. rewrite IH, app_nil_r.
  destruct ev as [X c x]. destruct c; try reflexivity; discriminate Hev.
Qed.

Lemma X7_witness :
  let env := working ["111111"; "222222"] [0; 0] (Err ErrNotFound) in
  let cmd := aCmd 123456 false false in
  PIN cmd <> 0
  /\ Forall (fun ev => is_terminal ev = false) (fst (run env (Run "v1" cmd) []))
  /\ entries (fst (run env (Run "v1" cmd) [])) = [].
Proof.
  intros env cmd.
  assert (Hflag : PIN cmd <> 0) by discriminate.
  split; [exact Hflag |].
  exact (X7_pin_flag_means_no_terminal "v1" env cmd Hflag).
Defined.

(** ** A run that succeeds *)

Lemma setup_succeeds version cmd k :
  post (setup version cmd k) []
    (fun new r => r = Ok tt ->
                  Forall (fun ev => succeeded ev = true \/ is_not_found ev = true) new).
Proof.
  unfold setup. exec_post.
  all: try discriminate.
  all: (eapply post_mono; [| apply post_anywhere, configureSlots_configured]);
    intros tr r [new [-> [_ H]]] Hr; subst r;
    destruct H as [_ [_ [Hok _]]];
    apply Forall_app; split;
    [ repeat (constructor;
              [first [left; reflexivity
                     | right; cbn [is_not_found ev_call ev_resp];
                       apply negb_false_iff; assumption] |]);
      constructor
    | eapply Forall_impl; [| exact Hok]; intros ev Hev; left; exact Hev ].
Qed.

Lemma setup_all_succeeded version cmd k :
  post (setup version cmd k) [] (all_succeeded cmd k).
Proof.
  apply post_mono
    with (Q := fun tr r =>
                 stays_in_setup cmd k tr r
                 /\ (slots_counted cmd tr r
                     /\ (r = Ok tt ->
                         Forall (fun ev => succeeded ev = true
                                           \/ is_not_found ev = true) tr)));
    [intros tr r H; exact H |].
  apply post_and; [apply setup_stays_in_setup |].
  apply post_and; [apply setup_slots_counted | apply setup_succeeds].
Qed.

Lemma quiet_ByRun (l : Trace) :
  Forall (fun ev => origin ev = ByRun) l ->
  generated l = [] /\ stored l = [] /\ output l = [].
Proof.
  induction 1 as [| ev l Hev _ [IHg [IHs IHo]]]; [repeat split |].
  unfold generated, stored, output in *. cbn [flat_map].
  rewrite IHg, IHs, IHo.
  destruct ev as [X c x]. destruct c; try discriminate Hev; repeat split.
Qed.

Lemma terminal_succeeded (l : Trace) :
  Forall (fun ev => is_terminal ev = true) l ->
  Forall (fun r => is_Ok r = true) (entries l) ->
  Forall (fun ev => succeeded ev = true) l.
Proof.
  induction 1 as [| ev l Hev _ IH]; intros He; [constructor |].
  change (entries (ev :: l)) with (entry ev ++ entries l) in He.
  apply Forall_app in He. destruct He as [He1 He2].
  constructor; [| apply IH, He2].
  destruct ev as [X c x]. destruct c; try reflexivity; try discriminate Hev.
  cbn [entry ev_call ev_resp] in He1. inversion He1. assumption.
Qed.

(** X8: when the command returns no error, it reached the device, a key
    was generated for every entry of the active table, in its order, each
    certificate was stored and each pair of lines printed; and every call
    of the run succeeded, but for the query of the authentication slot when
    it answered "not found" and the final [log.Sync], whose error is
    dropped. *)
Theorem X8_success_means_all_slots_configured :
  forall version env cmd,
    snd (run env (Run version cmd) []) = Ok tt ->
    let tr := fst (run env (Run version cmd) []) in
    touches_device tr = true
    /\ generated tr = keySpec cmd
    /\ stored tr = map slot (keySpec cmd)
    /\ (exists keys, List.length keys = List.length (keySpec cmd)
                     /\ output tr = key_lines (keySpec cmd) keys)
    /\ Forall (fun ev => succeeded ev = true
                         \/ is_not_found ev = true
                         \/ is_sync ev = true) tr.
Proof.
  intros version env cmd Hok tr. subst tr.
  destruct (Run_composed version env cmd all_succeeded (setup_all_succeeded version))
    as [[_ [[e He] _]] | [log [pre [pin [k [new [s [E [Hpre [[_ Hfrom] [_ [[_ Hslots] Hsucc]]]]]]]]]]]].
  { rewrite Hok in He. discriminate He. }
  rewrite Hok in *. specialize (Hslots eq_refl). specialize (Hsucc eq_refl).
  change (keySpec (with_PIN cmd pin)) with (keySpec cmd) in Hslots.
  destruct Hslots as [Hgen [Hst Hout]].
  assert (Hpre_ok : Forall (fun ev => succeeded ev = true) pre).
  { destruct (PIN cmd =? 0).
    - destruct Hfrom as [raw [Hent _]]. apply terminal_succeeded; [exact Hpre |].
      rewrite Hent. repeat constructor.
    - destruct Hfrom as [_ ->]. constructor. }
  apply terminal_ByRun in Hpre.
  assert (Hhead : Forall (fun ev => origin ev = ByRun)
                    (Ev zap_NewDevelopment (Ok log)
                     :: pre ++ [Ev (getSecurityKey (Card cmd)) (Ok k)])).
  { constructor; [reflexivity |]. apply Forall_app. split; [exact Hpre |].
    repeat constructor. }
  destruct (quiet_ByRun _ Hhead) as [Hg0 [Hs0 Ho0]].
  assert (Etr : fst (run env (Run version cmd) [])
                = (Ev zap_NewDevelopment (Ok log)
                   :: pre ++ [Ev (getSecurityKey (Card cmd)) (Ok k)])
                  ++ new ++ [Ev (log_Sync log) s]).
  { rewrite E. cbn [app]. rewrite <- app_assoc. reflexivity. }
  rewrite Etr.
  split.
  { apply existsb_exists. exists (Ev (getSecurityKey (Card cmd)) (Ok k)).
    split; [| reflexivity].
    apply in_or_app. left. right. apply in_or_app. right. left. reflexivity. }
  rewrite !generated_app, !stored_app, !output_app, Hg0, Hs0, Ho0, Hgen, Hst.
  cbn [app]. rewrite ?app_nil_r.
  split; [reflexivity |]. split; [reflexivity |].
  split.
  { destruct Hout as [keys [Hlen Ho]]. exists keys. rewrite Ho. auto. }
  constructor; [left; reflexivity |].
  apply Forall_app. split.
  - apply Forall_app. split.
    + eapply Forall_impl; [| exact Hpre_ok]. intros ev Hev. left. exact Hev.
    + repeat constructor.
  - apply Forall_app. split.
    + eapply Forall_impl; [| exact Hsucc]. intros ev [Hev | Hev]; auto.
    + constructor; [right; right; reflexivity | constructor].
Qed.

Lemma X8_witness :
  let env := working [] [0; 0; 0; 0; 0; 0] (Err ErrNotFound) in
  let cmd := aCmd 87654321 true false in
  let tr := fst (run env (Run "v1" cmd) []) in
  snd (run env (Run "v1" cmd) []) = Ok tt
  /\ touches_device tr = true
  /\ generated tr = keySpec cmd
  /\ stored tr = map slot (keySpec cmd)
  /\ (exists keys, List.length keys = List.length (keySpec cmd)
                   /\ output tr = key_lines (keySpec cmd) keys)
  /\ Forall (fun ev => succeeded ev = true
                       \/ is_not_found ev = true
                       \/ is_sync ev = true) tr.
Proof.
  intros env cmd tr.
  assert (Hok : snd (run env (Run "v1" cmd) []) = Ok tt) by (vm_compute; reflexivity).
  split; [exact Hok |].
  exact (X8_success_means_all_slots_configured "v1" env cmd Hok).
Defined.

(** ** [interactivePIN] *)

Lemma interactivePIN_contract :
  post interactivePIN []
    (fun new r =>
       Forall (fun ev => is_terminal ev = true) new
       /\ (List.length (entries new) <= 2)%nat
       /\ forall pin,
            r = Ok pin <->
            exists rawPIN,
              entries new = [Ok rawPIN; Ok rawPIN] /\ ParseUint rawPIN = Ok pin).
Proof.
  unfold interactivePIN. exec_post.
  all: repeat match goal with u : unit |- _ => destruct u end.
  all: validator_facts.
  all: (split; [repeat constructor |]);
    (split; [cbn; lia |]);
    intros pin; cbn [entries flat_map entry ev_call ev_resp app];
    (split; [intros Hr | intros [raw [Hent Hparse]]]).
  all: try discriminate.
  all: try (injection Hent as -> ->; congruence).
  - injection Hr as <-. eauto.
  - injection Hent as ->. congruence.
Qed.

(** X9: [interactivePIN] only talks to the terminal and reads at most two
    entries; it returns a number exactly when two entries were read that
    are equal byte for byte and the first one parses, and the number is
    its value.  The range is not its concern. *)
Theorem X9_interactivePIN_returns_the_entry_typed_twice :
  forall env tr0,
    exists new,
      fst (run env interactivePIN tr0) = tr0 ++ new
      /\ Forall (fun ev => is_terminal ev = true) new
      /\ (List.length (entries new) <= 2)%nat
      /\ forall pin,
           snd (run env interactivePIN tr0) = Ok pin <->
           exists rawPIN,
             entries new = [Ok rawPIN; Ok rawPIN] /\ ParseUint rawPIN = Ok pin.
Proof.
  intros env tr0.
  destruct (post_run env _ _ interactivePIN_contract tr0) as [new [E H]].
  exists new. rewrite E. cbn [fst]. split; [reflexivity | exact H].
Qed.

Example interactivePIN_out_of_range :
  snd (run (working ["7"; "7"] [] (Err ErrNotFound)) interactivePIN []) = Ok 7
  /\ snd (run (working ["0123456"; "123456"] [] (Err ErrNotFound)) interactivePIN [])
     = Err (errorf "PIN/PUK entries not equal" []).
Proof. split; reflexivity. Qed.

(** ** From the generated key to the stored certificate *)

Lemma certificate_chain_recent version : recent (certificate_chain version).
Proof.
  intros l0 l ev H k mk slot cert Hset.
  destruct (H k mk slot cert Hset)
    as [l1 [opts [pub [priv [serial [now1 [now2 [template [parent [der [E Hp]]]]]]]]]]].
  exists (l0 ++ l1), opts, pub, priv, serial, now1, now2, template, parent, der.
  split; [rewrite E, app_assoc; reflexivity | exact Hp].
Qed.

Lemma certificate_chain_elsewhere version h ev :
  origin ev <> ByConfigureSlot -> certificate_chain version h ev.
Proof.
  destruct ev as [X c x]. intros Ho k mk slot cert H.
  destruct c; try discriminate H. now elim Ho.
Qed.

Lemma configureSlot_certificate_chain version cmd k mk slot touchPolicy :
  always (certificate_chain version) []
    (configureSlot version cmd k mk slot touchPolicy).
Proof.
  unfold configureSlot.
  exec_always ltac:(intros k' mk' slot' cert' H; cbn [certificate_set ev_call] in H;
                    try discriminate H; injection H as <- <- <- <-).
  eexists [], _, _, _, _, _, _, _, _, _.
  split; [reflexivity |]. repeat split.
Qed.

(** X10: whenever the command stores a certificate in a slot, the seven
    calls just before it are, in order: the generation of the key in that
    very slot with the same handle and management key, the generation of a
    host key, the serial number, two readings of the clock, the creation of
    the certificate for the generated public key signed with the host key,
    and the parsing of the bytes that creation returned; the stored
    certificate is the parsed one, and the issuer carries the organisation
    "piv-agent", the version as organisational unit and the public key of
    that host key. *)
Theorem X10_stored_certificate_is_the_one_just_created :
  forall version env cmd l1 ev l2 k mk slot cert,
    fst (run env (Run version cmd) []) = l1 ++ ev :: l2 ->
    certificate_set ev = Some (k, mk, slot, cert) ->
    exists l0 opts pub priv serial now1 now2 template parent der,
      l1 = l0 ++ [ Ev (yk_GenerateKey k mk slot opts) (Ok pub);
                   Ev ecdsa_GenerateKey (Ok priv);
                   Ev (rand_Int (2 ^ 128)) (Ok serial);
                   Ev time_Now now1;
                   Ev time_Now now2;
                   Ev (x509_CreateCertificate template parent pub priv) (Ok der);
                   Ev (x509_ParseCertificate der) (Ok cert) ]
      /\ Organization (Subject parent) = ["piv-agent"]
      /\ OrganizationalUnit (Subject parent) = [version]
      /\ CertPublicKey parent = Some priv.
Proof.
  intros version env cmd l1 ev l2 k mk slot cert E Hset.
  assert (H : always (certificate_chain version) [] (Run version cmd)).
  { apply always_Run.
    - apply certificate_chain_recent.
    - intros h e Ho. apply certificate_chain_elsewhere. congruence.
    - intros h e Ho. apply certificate_chain_elsewhere. congruence.
    - intros. apply configureSlot_certificate_chain. }
  apply (always_run _ env) in H.
  exact (H l1 ev l2 E k mk slot cert Hset).
Qed.

Lemma X10_witness :
  let tr := fst (run (working [] [0; 0] (Err ErrNotFound))
                   (Run "v1" (aCmd 123456 false false)) []) in
  let cert := {| Subject := {| CommonName := "SSH key";
                               Organization := [];
                               OrganizationalUnit := [] |};
                 NotBefore := 0; NotAfter := 0; SerialNumber := None;
                 KeyUsage := 0; CertPublicKey := None |} in
  let k := yubikey 1 in
  let mk := repeat Byte.x2a 24 in
  (tr = firstn 15 tr ++ nth 15 tr (Ev time_Now 0) :: skipn 16 tr
   /\ certificate_set (nth 15 tr (Ev time_Now 0))
      = Some (k, mk, SlotAuthentication, cert))
  /\ exists l0 opts pub priv serial now1 now2 template parent der,
      firstn 15 tr
      = l0 ++ [ Ev (yk_GenerateKey k mk SlotAuthentication opts) (Ok pub);
                Ev ecdsa_GenerateKey (Ok priv);
                Ev (rand_Int (2 ^ 128)) (Ok serial);
                Ev time_Now now1;
                Ev time_Now now2;
                Ev (x509_CreateCertificate template parent pub priv) (Ok der);
                Ev (x509_ParseCertificate der) (Ok cert) ]
      /\ Organization (Subject parent) = ["piv-agent"]
      /\ OrganizationalUnit (Subject parent) = ["v1"]
      /\ CertPublicKey parent = Some priv.
Proof.
  intros tr cert k mk.
  assert (E : tr = firstn 15 tr ++ nth 15 tr (Ev time_Now 0) :: skipn 16 tr)
    by (vm_compute; reflexivity).
  assert (Hset : certificate_set (nth 15 tr (Ev time_Now 0))
                 = Some (k, mk, SlotAuthentication, cert))
    by (vm_compute; reflexivity).
  split; [split; [exact E | exact Hset] |].
  exact (X10_stored_certificate_is_the_one_just_created
           "v1" (working [] [0; 0] (Err ErrNotFound)) (aCmd 123456 false false)
           (firstn 15 tr) (nth 15 tr (Ev time_Now 0)) (skipn 16 tr)
           k mk SlotAuthentication cert E Hset).
Defined.

(** ** Stopping at the first failure *)

Lemma fails_fast_spec (tr : Trace) :
  fails_fast tr = true ->
  forall l1 ev l2,
    tr = l1 ++ ev :: l2 -> tolerated ev = false ->
    Forall (fun e => closing e = true) l2.
Proof.
  induction tr as [| x tr IH]; intros H l1 ev l2 E Ht.
  - destruct l1; discriminate E.
  - cbn [fails_fast] in H. apply andb_prop in H. destruct H as [Hx Htr].
    destruct l1 as [| y l1]; cbn [app] in E; injection E as -> ->.
    + rewrite Ht, orb_false_r in Hx.
      apply Forall_forall. apply forallb_forall. exact Hx.
    + exact (IH Htr l1 ev l2 eq_refl Ht).
Qed.

Lemma fails_fast_app (l rest : Trace) :
  Forall (fun ev => tolerated ev = true) l ->
  fails_fast rest = true -> fails_fast (l ++ rest) = true.
Proof.
  induction 1 as [| x l Hx _ IH]; intros Hrest; [exact Hrest |].
  cbn [app fails_fast]. rewrite Hx, orb_true_r. exact (IH Hrest).
Qed.

Lemma Forall_removelast {A} (P : A -> Prop) (l : list A) :
  Forall P l -> Forall P (removelast l).
Proof.
  induction 1 as [| x l Hx Hl IH]; [constructor |].
  cbn [removelast]. destruct l; [constructor | constructor; assumption].
Qed.

Lemma fails_fast_closed (new : Trace) log s :
  Forall (fun ev => tolerated ev = true) (removelast new) ->
  fails_fast (new ++ [Ev (log_Sync log) s]) = true.
Proof.
  intros H. destruct new as [| x new']; [reflexivity |].
  destruct (@exists_last _ (x :: new')) as [l [y E]]; [discriminate |].
  rewrite E in *. rewrite removelast_last in H.
  rewrite <- app_assoc. apply fails_fast_app; [exact H | reflexivity].
Qed.

Lemma succeeded_tolerated (l : Trace) :
  Forall (fun ev => succeeded ev = true) l ->
  Forall (fun ev => tolerated ev = true) l.
Proof.
  apply Forall_impl. intros ev H. unfold tolerated. now rewrite H.
Qed.

Ltac tolerated_leaf :=
  unfold tolerated;
  cbn [succeeded is_not_found ev_call ev_resp is_Ok is_nil orb];
  first [reflexivity | apply negb_false_iff; assumption].

Lemma setup_clean_but_last version cmd k :
  post (setup version cmd k) [] (clean_but_last cmd k).
Proof.
  unfold setup, clean_but_last. exec_post.
  all: try solve [cbn [removelast]; repeat (constructor; [tolerated_leaf |]); constructor].
  all: (eapply post_mono; [| apply post_anywhere, configureSlots_configured]);
    intros tr r [new [-> [_ H]]];
    destruct r as [[] | err].
  all: try (destruct H as [_ [_ [Hok _]]];
            apply Forall_removelast, Forall_app; split;
            [repeat (constructor; [tolerated_leaf |]); constructor
            | apply succeeded_tolerated, Hok]).
  all: destruct H as (n & ss & cause & keys & m & _ & _ & _ & _ & _ & _ & _
                      & l & ev & -> & _ & Hl);
    rewrite app_assoc, removelast_last; apply Forall_app; split;
    [repeat (constructor; [tolerated_leaf |]); constructor
    | apply succeeded_tolerated, Hl].
Qed.

Lemma validated_entries_succeeded cmd pre pin :
  secret_from cmd pre pin ->
  Forall (fun ev => is_terminal ev = true) pre ->
  Forall (fun ev => succeeded ev = true) pre.
Proof.
  intros [_ Hfrom] Hpre. destruct (PIN cmd =? 0).
  - destruct Hfrom as [raw [Hent _]]. apply terminal_succeeded; [exact Hpre |].
    rewrite Hent. repeat constructor.
  - destruct Hfrom as [_ ->]. constructor.
Qed.

(** X11: the command stops at the first call that fails.  After a call
    that did not succeed, the query of the authentication slot answering
    "not found" apart, it makes no further call but the [fmt.Println] that
    ends a prompt and the deferred [log.Sync]: no device call, no prompt,
    no read and no output. *)
Theorem X11_nothing_but_newline_and_sync_after_a_failure :
  forall version env cmd l1 ev l2,
    fst (run env (Run version cmd) []) = l1 ++ ev :: l2 ->
    succeeded ev = false ->
    is_not_found ev = false ->
    Forall (fun e => is_newline e = true \/ is_sync e = true) l2.
Proof.
  intros version env cmd l1 ev l2 E Hfail Hnf.
  assert (Hff : fails_fast (fst (run env (Run version cmd) [])) = true).
  { destruct (Run_composed version env cmd clean_but_last
                (setup_clean_but_last version))
      as [[_ [_ [_ Hff]]] | [log [pre [pin [k [new [s [Etr [Hpre [Hfrom Hnew]]]]]]]]]].
    - exact Hff.
    - rewrite Etr.
      change (fails_fast
                ((Ev zap_NewDevelopment (Ok log) :: pre)
                 ++ Ev (getSecurityKey (Card cmd)) (Ok k)
                    :: new ++ [Ev (log_Sync log) s]) = true).
      apply fails_fast_app.
      + constructor; [reflexivity |].
        apply succeeded_tolerated.
        exact (validated_entries_succeeded cmd pre pin Hfrom Hpre).
      + apply (fails_fast_app [Ev (getSecurityKey (Card cmd)) (Ok k)]).
        * repeat constructor.
        * apply fails_fast_closed, Hnew. }
  assert (Ht : tolerated ev = false) by (unfold tolerated; now rewrite Hfail, Hnf).
  eapply Forall_impl; [| exact (fails_fast_spec _ Hff l1 ev l2 E Ht)].
  intros e He. apply orb_prop. exact He.
Qed.

Lemma X11_witness :
  let env := failing_at 2 (errorString "closed")
               (working ["123456"; "123456"] [] (Err ErrNotFound)) in
  let tr := fst (run env (Run "v1" (aCmd 0 true false)) []) in
  let ev := nth 2 tr (Ev time_Now 0) in
  (tr = firstn 2 tr ++ ev :: skipn 3 tr
   /\ succeeded ev = false
   /\ is_not_found ev = false
   /\ skipn 3 tr = [Ev fmt_Println tt; Ev (log_Sync (logger 0)) None])
  /\ Forall (fun e => is_newline e = true \/ is_sync e = true) (skipn 3 tr).
Proof.
  intros env tr ev.
  assert (E : tr = firstn 2 tr ++ ev :: skipn 3 tr) by (vm_compute; reflexivity).
  assert (Hfail : succeeded ev = false) by (vm_compute; reflexivity).
  assert (Hnf : is_not_found ev = false) by (vm_compute; reflexivity).
  split; [split; [exact E | split; [exact Hfail | split; [exact Hnf |]]] |].
  - vm_compute. reflexivity.
  - exact (X11_nothing_but_newline_and_sync_after_a_failure
             "v1" env (aCmd 0 true false) (firstn 2 tr) ev (skipn 3 tr) E Hfail Hnf).
Defined.

(** ** The dialogue of [interactivePIN] *)

Lemma interactivePIN_dialogue :
  post interactivePIN []
    (fun new _ =>
       exists reads,
         new = dialogue reads
         /\ (1 <= List.length reads <= 2)%nat
         /\ (List.length reads = 2%nat <->
             exists rawPIN pin,
               hd_error reads = Some (Ok rawPIN) /\ ParseUint rawPIN = Ok pin)).
Proof.
  unfold interactivePIN. exec_post.
  all: repeat match goal with u : unit |- _ => destruct u end.
  all: match goal with
       | |- context [[_; Ev terminal_ReadPassword ?r1; _;
                      _; Ev terminal_ReadPassword ?r2; _]] => exists [r1; r2]
       | |- context [[_; Ev terminal_ReadPassword ?r1; _]] => exists [r1]
       end.
  all: (split; [reflexivity |]); (split; [cbn; lia |]);
    cbn [List.length hd_error];
    (split; [intros Hlen | intros [raw [pin [Hhd Hparse]]]]).
  all: try discriminate.
  all: try (injection Hhd as <-; congruence).
  all: try reflexivity.
  all: eauto.
Qed.

(** X12: in [interactivePIN] every read of the terminal comes right after
    its prompt and is followed by a newline, also when the read fails;
    there are one or two such rounds, the first with the prompt
    "Enter a new PIN/PUK (6-8 digits): " and the second with
    "Repeat PIN/PUK: ", and the second round takes place exactly when the
    first entry was read and parses as a number. *)
Theorem X12_each_read_is_prompted_and_closed :
  forall env tr0,
    exists reads,
      fst (run env interactivePIN tr0) = tr0 ++ dialogue reads
      /\ (1 <= List.length reads <= 2)%nat
      /\ (List.length reads = 2%nat <->
          exists rawPIN pin,
            hd_error reads = Some (Ok rawPIN) /\ ParseUint rawPIN = Ok pin).
Proof.
  intros env tr0.
  destruct (post_run env _ _ interactivePIN_dialogue tr0)
    as [new [E [reads [-> H]]]].
  exists reads. rewrite E. split; [reflexivity | exact H].
Qed.

(** ** [Run] hands over to [setup] *)

Lemma run_defer {A} (env : Env) (p : Prog A) (d : Prog unit) (tr : Trace) :
  run env (defer p d) tr =
  match run env d (fst (run env p tr)) with
  | (tr', Ok _) => (tr', snd (run env p tr))
  | (tr', Err e) => (tr', Err e)
  end.
Proof.
  revert tr; induction p as [a | e | X c k IH]; intros tr; cbn [defer run fst snd].
  - rewrite run_bind. destruct (run env d tr) as [tr' [[] | e]]; reflexivity.
  - rewrite run_bind. destruct (run env d tr) as [tr' [[] | e']]; reflexivity.
  - apply IH.
Qed.

(** X13: when [Run] gets a security key, it returns exactly what [setup]
    returns for the command carrying the validated secret and that key,
    started after the calls [Run] made so far: the same calls, followed by
    the deferred [log.Sync], and the same result, whatever [log.Sync]
    answers.  Otherwise [Run] made only calls of its own and returns an
    error. *)
Theorem X13_Run_returns_what_setup_returns :
  forall version env cmd,
    let out := run env (Run version cmd) [] in
    (Forall (fun ev => origin ev = ByRun) (fst out) /\ exists e, snd out = Err e)
    \/ exists log pre pin k,
         let acc := Ev zap_NewDevelopment (Ok log)
                    :: pre ++ [Ev (getSecurityKey (Card cmd)) (Ok k)] in
         let inner := run env (setup version (with_PIN cmd pin) k) acc in
         Forall (fun ev => is_terminal ev = true) pre
         /\ 100000 <= pin <= 99999999
         /\ (PIN cmd <> 0 -> pin = PIN cmd /\ pre = [])
         /\ fst out = fst inner
                      ++ [Ev (log_Sync log) (env (fst inner) _ (log_Sync log))]
         /\ snd out = snd inner.
Proof.
  intros version env cmd. cbv zeta.
  unfold Run. cbn [bind call run app].
  destruct (env [] _ zap_NewDevelopment) as [log | e0].
  2: { left. cbn [check bind run fst snd]. split; [repeat constructor | eauto]. }
  cbn [check bind]. rewrite run_defer, run_bind.
  set (start := [Ev zap_NewDevelopment (Ok log)]).
  assert (Hpin : exists pre,
             fst (run env (if PIN cmd =? 0 then interactivePIN else Ret (PIN cmd)) start)
             = start ++ pre
             /\ Forall (fun ev => is_terminal ev = true) pre
             /\ (PIN cmd <> 0 ->
                 snd (run env (if PIN cmd =? 0 then interactivePIN else Ret (PIN cmd))
                        start) = Ok (PIN cmd)
                 /\ pre = [])).
  { destruct (PIN cmd =? 0) eqn:Hz.
    - destruct (post_run env _ _ interactivePIN_contract start) as [new [E [Hterm _]]].
      exists new. rewrite E. cbn [fst]. split; [reflexivity |].
      split; [exact Hterm |]. intros Hne. apply Z.eqb_eq in Hz. contradiction.
    - exists []. cbn [run fst snd]. rewrite app_nil_r. repeat split. constructor. }
  destruct Hpin as [pre [Epre [Hterm Hflag]]].
  destruct (run env (if PIN cmd =? 0 then interactivePIN else Ret (PIN cmd)) start)
    as [tr1 [pin | e1]]; cbn [fst snd] in Epre, Hflag; subst tr1.
  2: { left. cbn [run fst snd bind call]. split; [| eauto].
       apply Forall_app. split; [| repeat constructor].
       apply Forall_app. split; [repeat constructor | apply terminal_ByRun, Hterm]. }
  cbv zeta. cbn [PIN with_PIN].
  destruct ((pin <? 100000) || (99999999 <? pin)) eqn:Hrange.
  { left. cbn [run fst snd bind call]. split; [| eauto].
    apply Forall_app. split; [| repeat constructor].
    apply Forall_app. split; [repeat constructor | apply terminal_ByRun, Hterm]. }
  cbn [bind call run Card with_PIN].
  destruct (env (start ++ pre) _ (getSecurityKey (Card cmd))) as [k | e2].
  2: { left. cbn [check bind run fst snd call]. split; [| eauto].
       apply Forall_app. split; [| repeat constructor].
       apply Forall_app. split; [| repeat constructor].
       apply Forall_app. split; [repeat constructor | apply terminal_ByRun, Hterm]. }
  right. exists log, pre, pin, k. cbn [check bind].
  change (Ev zap_NewDevelopment (Ok log)
          :: pre ++ [Ev (getSecurityKey (Card cmd)) (Ok k)])
    with ((start ++ pre) ++ [Ev (getSecurityKey (Card cmd)) (Ok k)]).
  change {| Card := Card cmd; ResetSecurityKey := ResetSecurityKey cmd;
            PIN := pin; AllTouchPolicies := AllTouchPolicies cmd |}
    with (with_PIN cmd pin).
  split; [exact Hterm |].
  split; [apply in_range_of_test, Hrange |].
  split; [intros Hne; destruct (Hflag Hne) as [Hp ->]; split; congruence |].
  cbn [run fst snd]. split; reflexivity.
Qed.
